(** * restfront/logger: the rotating file sink and the logger facade

    A shallow embedding of [rotation.go] (the [fileRotator] sink and the
    [compressFile] worker) and of the part of [logger.go] that builds and
    derives [Logger] values, together with the properties the specification
    states about them.

    The Go runtime and the libraries the code calls ([time], [os],
    [path/filepath], [archive/zip], [zap]) are modelled by their documented
    contracts over an explicit [World]: a clock that is read afresh by every
    [time.Now()], a table of [*os.File] objects, a file system, a fault
    oracle that decides which system call fails, the goroutines that were
    started and a trace of the calls that were made.  The functions of the
    repository are translated statement by statement on top of it.  The
    sink's mutex is not part of the state: [Write] and [Close] hold it from
    their first to their last statement, and each is one transition here. *)

From Stdlib Require Import ZArith List String Ascii Bool Lia.
From stdpp Require Import base option list gmap strings.

Local Open Scope string_scope.
Local Open Scope list_scope.
Local Open Scope Z_scope.

(** ** [time]: civil dates, [Format("2006_01_02")] *)

(** A [time.Time], seen through the accessors the code uses: [Year()],
    [Month()], [Day()], and the rest of the instant ([Nanos], the time
    elapsed since midnight), which no function of the repository reads. *)
Record Time : Set := mkTime { Year : Z; Month : Z; Day : Z; Nanos : Z }.

(** The zero value of [time.Time]: January 1 of year 1, 00:00:00 UTC. *)
Definition zeroTime : Time := mkTime 1 1 1 0.

Definition same_date (a b : Time) : Prop :=
  Day a = Day b /\ Month a = Month b /\ Year a = Year b.

(** The dates a four-digit layout prints in ten characters. *)
Definition valid_date (t : Time) : Prop :=
  0 <= Year t <= 9999 /\ 1 <= Month t <= 12 /\ 1 <= Day t <= 31.

(** [utod]: a decimal digit as a character. *)
Definition utod (u : Z) : ascii := ascii_of_N (Z.to_N (48 + u)).

(** The digits of [u], most significant first (the general loop of
    [appendInt]); [fuel] bounds the number of digits. *)
Fixpoint digits (fuel : nat) (u : Z) (acc : string) : string :=
  match fuel with
  | O => acc
  | S k => if u <? 10 then String (utod u) acc
           else digits k (u / 10) (String (utod (u mod 10)) acc)
  end.

Fixpoint zeros (n : nat) : string :=
  match n with O => "" | S k => String "0" (zeros k) end.

(** [appendInt(b, x, width)] of package [time]: an optional sign, then the
    decimal digits of [|x|] padded with zeros to [width]; the widths 2 and 4
    have their own fast paths. *)
Definition appendInt (x : Z) (width : nat) : string :=
  let sign := if x <? 0 then "-" else "" in
  let u := Z.abs x in
  sign +:+
  (if (Nat.eqb width 2 && (u <? 100))%bool then
     String (utod (u / 10)) (String (utod (u mod 10)) "")
   else if (Nat.eqb width 4 && (u <? 10000))%bool then
     String (utod (u / 1000)) (String (utod (u / 100 mod 10))
       (String (utod (u / 10 mod 10)) (String (utod (u mod 10)) "")))
   else
     let d := digits 20 u "" in
     zeros (width - String.length d) +:+ d).

(** [t.Format("2006_01_02")]: the layout is the long year, a literal
    underscore, the zero-padded month, a literal underscore and the
    zero-padded day. *)
Definition Format (t : Time) : string :=
  appendInt (Year t) 4 +:+ "_" +:+ appendInt (Month t) 2 +:+ "_" +:+
  appendInt (Day t) 2.

(** ** [path/filepath]: [Clean], [Join], [Base] (Unix separators) *)

Definition is_sep (c : ascii) : bool := Ascii.eqb c "/".

(** The elements of a path between separators, empty ones included. *)
Fixpoint elems (s : string) : list string :=
  match s with
  | EmptyString => [""]
  | String c s' =>
      if is_sep c then "" :: elems s'
      else match elems s' with
           | [] => [String c ""]
           | e :: es => String c e :: es
           end
  end.

(** One element of [Clean]'s scan; [out] holds the elements kept so far,
    last one first. *)
Definition clean_step (rooted : bool) (out : list string) (e : string)
  : list string :=
  if String.eqb e "" then out
  else if String.eqb e "." then out
  else if String.eqb e ".." then
    match out with
    | top :: rest =>
        if String.eqb top ".." then ".." :: out else rest
    | [] => if rooted then [] else [".."]
    end
  else e :: out.

Fixpoint join_sep (l : list string) : string :=
  match l with
  | [] => ""
  | [e] => e
  | e :: l' => e +:+ "/" +:+ join_sep l'
  end.

Definition is_rooted (p : string) : bool :=
  match p with String c _ => is_sep c | EmptyString => false end.

(** [filepath.Clean]: drop empty and [.] elements, resolve inner [..]
    elements, drop [..] at the root; the empty result is [.]. *)
Definition Clean (p : string) : string :=
  let rooted := is_rooted p in
  let out := rev (fold_left (clean_step rooted) (elems p) []) in
  if rooted then "/" +:+ join_sep out
  else match out with [] => "." | _ => join_sep out end.

(** [filepath.Join] of two elements: empty elements are ignored and the
    result is cleaned. *)
Definition Join (dir name : string) : string :=
  if String.eqb dir "" then
    if String.eqb name "" then "" else Clean name
  else Clean (dir +:+ "/" +:+ name).

Fixpoint last_nonempty (l : list string) (acc : option string) : option string :=
  match l with
  | [] => acc
  | e :: l' => last_nonempty l' (if String.eqb e "" then acc else Some e)
  end.

(** [filepath.Base]: the last element of the path, trailing separators
    removed; [.] for the empty path and [/] for a path of separators. *)
Definition Base (p : string) : string :=
  if String.eqb p "" then "."
  else match last_nonempty (elems p) None with
       | Some e => e
       | None => "/"
       end.

(** A name without separator. *)
Fixpoint no_sep (s : string) : bool :=
  match s with
  | EmptyString => true
  | String c s' => negb (is_sep c) && no_sep s'
  end.

(** A name that is one element of a path, and one that [Clean] keeps. *)
Definition plain (n : string) : Prop :=
  no_sep n = true /\ n <> "" /\ n <> "." /\ n <> "..".

Fixpoint join_pre (l : list string) : string :=
  match l with
  | [] => ""
  | e :: l' => e +:+ "/" +:+ join_pre l'
  end.

(** What [Join] puts in front of a plain name: the cleaned directory and a
    separator, or nothing when the directory is empty. *)
Definition dir_prefix (dir : string) : string :=
  if String.eqb dir "" then ""
  else (if is_rooted dir then "/" else "") +:+
       join_pre (rev (fold_left (clean_step (is_rooted dir)) (elems dir) [])).

(** The name [openNew] gives the file of date [d] in directory [dir]. *)
Definition logName (dir : string) (d : Time) : string :=
  Join dir (Format d +:+ ".log").

(** ** The world the sink runs in *)

(** The errors the model tells apart: [os.ErrInvalid] (a method called on
    a nil [*os.File]), [os.ErrClosed] (a method called on a closed file),
    [fs.ErrNotExist], and the other failures of a system call. *)
Inductive error : Set :=
  ErrInvalid | ErrClosed | ErrNotExist | ErrPermission | ErrNoSpace | ErrIO.

Inductive res (A : Type) : Type :=
| Ok (a : A)
| Err (e : error).
Arguments Ok {A} a.
Arguments Err {A} e.

(** An [*os.File] object: the name it was opened under and whether it is
    still open.  A handle is the index of the object in [fds]; the nil
    pointer is [None]. *)
Record File : Set := mkFile { fname : string; fopen : bool }.

(** An entry of a zip archive: the header built by [zip.FileInfoHeader]
    (name and size of the source) and the bytes copied into it. *)
Record ZipEntry : Set := mkZipEntry {
  zname : string;
  zsize : Z;
  zdata : list Byte.byte
}.

(** What a path of the file system holds: the bytes of a plain file, or an
    archive written by [zip.Writer], which is complete once its central
    directory was written by [zip.Writer.Close]. *)
Inductive Content : Set :=
| Plain (data : list Byte.byte)
| Archive (entries : list ZipEntry) (complete : bool).

(** The calls to the operating system and to [archive/zip]. *)
Inductive Op : Set :=
| OpStat (p : string)
| OpMkdirAll (p : string)
| OpOpenFile (name : string)
| OpOpen (name : string)
| OpCreate (name : string)
| OpRemove (name : string)
| OpSync (h : nat)
| OpClose (h : nat)
| OpWrite (h : nat) (p : list Byte.byte)
| OpFstat (h : nat)
| OpFileInfoHeader (name : string)
| OpZipCreateHeader (h : nat)
| OpZipCopy (h : nat)
| OpZipClose (h : nat).

(** What the trace records: a call with its error result, or a [go]
    statement with the argument of [compressFile]. *)
Inductive Event : Set :=
| Call (op : Op) (r : option error)
| Go (src : string).

Record World : Type := mkWorld {
  clock : nat -> Time;           (* the n-th reading of time.Now() *)
  ticks : nat;                   (* readings taken so far *)
  faults : Op -> option error;   (* the calls that fail, and how *)
  dirs : list string;            (* the directories that exist *)
  files : gmap string Content;   (* the files that exist *)
  fds : list File;               (* the *os.File objects created so far *)
  goroutines : list string;      (* compressFile tasks started, not yet run *)
  trace : list Event             (* the calls made so far, oldest first *)
}.

Definition emit (e : Event) (w : World) : World :=
  mkWorld (clock w) (ticks w) (faults w) (dirs w) (files w) (fds w)
          (goroutines w) (trace w ++ [e]).

Definition set_dirs (d : list string) (w : World) : World :=
  mkWorld (clock w) (ticks w) (faults w) d (files w) (fds w)
          (goroutines w) (trace w).

Definition set_files (f : gmap string Content) (w : World) : World :=
  mkWorld (clock w) (ticks w) (faults w) (dirs w) f (fds w)
          (goroutines w) (trace w).

Definition set_fds (t : list File) (w : World) : World :=
  mkWorld (clock w) (ticks w) (faults w) (dirs w) (files w) t
          (goroutines w) (trace w).

Definition set_goroutines (g : list string) (w : World) : World :=
  mkWorld (clock w) (ticks w) (faults w) (dirs w) (files w) (fds w)
          g (trace w).

(** The environment changes which calls fail. *)
Definition set_faults (f : Op -> option error) (w : World) : World :=
  mkWorld (clock w) (ticks w) f (dirs w) (files w) (fds w)
          (goroutines w) (trace w).

(** The events added to the trace between [w] and [w']. *)
Definition new_events (w w' : World) : list Event :=
  drop (length (trace w)) (trace w').

(** *** [time.Now] *)

Definition time_Now (w : World) : Time * World :=
  (clock w (ticks w),
   mkWorld (clock w) (S (ticks w)) (faults w) (dirs w) (files w) (fds w)
           (goroutines w) (trace w)).

(** *** Package [os] *)

Definition path_exists (p : string) (w : World) : bool :=
  bool_decide (p ∈ dirs w) || bool_decide (is_Some (files w !! p)).

(** [os.Stat(p)], result reduced to its error. *)
Definition os_Stat (p : string) (w : World) : option error * World :=
  let r := match faults w (OpStat p) with
           | Some e => Some e
           | None => if path_exists p w then None else Some ErrNotExist
           end in
  (r, emit (Call (OpStat p) r) w).

(** [errors.Is(err, fs.ErrNotExist)]. *)
Definition is_not_exist (e : option error) : bool :=
  match e with Some ErrNotExist => true | _ => false end.

(** [os.MkdirAll(p, 0777)]. *)
Definition os_MkdirAll (p : string) (w : World) : option error * World :=
  match faults w (OpMkdirAll p) with
  | Some e => (Some e, emit (Call (OpMkdirAll p) (Some e)) w)
  | None =>
      let d := if bool_decide (p ∈ dirs w) then dirs w else p :: dirs w in
      (None, emit (Call (OpMkdirAll p) None) (set_dirs d w))
  end.

(** A new [*os.File] for [name]. *)
Definition new_file (name : string) (w : World) : nat * World :=
  (length (fds w), set_fds (fds w ++ [mkFile name true]) w).

(** [os.OpenFile(name, O_CREATE|O_WRONLY|O_APPEND, 0666)]: the file is
    created empty when it does not exist and is left as it is otherwise. *)
Definition os_OpenFile (name : string) (w : World) : res nat * World :=
  match faults w (OpOpenFile name) with
  | Some e => (Err e, emit (Call (OpOpenFile name) (Some e)) w)
  | None =>
      let fs := match files w !! name with
                | Some _ => files w
                | None => <[name := Plain []]> (files w)
                end in
      let '(h, w1) := new_file name (set_files fs w) in
      (Ok h, emit (Call (OpOpenFile name) None) w1)
  end.

(** [os.Open(name)]: read-only, the file must exist. *)
Definition os_Open (name : string) (w : World) : res nat * World :=
  match faults w (OpOpen name) with
  | Some e => (Err e, emit (Call (OpOpen name) (Some e)) w)
  | None =>
      match files w !! name with
      | None => (Err ErrNotExist, emit (Call (OpOpen name) (Some ErrNotExist)) w)
      | Some _ =>
          let '(h, w1) := new_file name w in
          (Ok h, emit (Call (OpOpen name) None) w1)
      end
  end.

(** [os.Create(name)]: the file is created or truncated. *)
Definition os_Create (name : string) (w : World) : res nat * World :=
  match faults w (OpCreate name) with
  | Some e => (Err e, emit (Call (OpCreate name) (Some e)) w)
  | None =>
      let '(h, w1) := new_file name (set_files (<[name := Plain []]> (files w)) w) in
      (Ok h, emit (Call (OpCreate name) None) w1)
  end.

(** [os.Remove(name)]. *)
Definition os_Remove (name : string) (w : World) : option error * World :=
  let r := match faults w (OpRemove name) with
           | Some e => Some e
           | None => match files w !! name with
                     | Some _ => None
                     | None => Some ErrNotExist
                     end
           end in
  (r, emit (Call (OpRemove name) r)
        (match r with None => set_files (delete name (files w)) w | Some _ => w end)).

(** The object behind a handle, when it is still open. *)
Definition open_file (h : nat) (w : World) : option File :=
  match fds w !! h with
  | Some f => if fopen f then Some f else None
  | None => None
  end.

(** [f.Sync()]: [ErrInvalid] on nil, [ErrClosed] on a closed file. *)
Definition file_Sync (f : option nat) (w : World) : option error * World :=
  match f with
  | None => (Some ErrInvalid, w)
  | Some h =>
      let r := match open_file h w with
               | None => Some ErrClosed
               | Some _ => faults w (OpSync h)
               end in
      (r, emit (Call (OpSync h) r) w)
  end.

(** [f.Close()]: [ErrInvalid] on nil, [ErrClosed] on a closed file; an open
    file is closed whether or not the system call reports an error. *)
Definition file_Close (f : option nat) (w : World) : option error * World :=
  match f with
  | None => (Some ErrInvalid, w)
  | Some h =>
      match open_file h w with
      | None => (Some ErrClosed, emit (Call (OpClose h) (Some ErrClosed)) w)
      | Some o =>
          let r := faults w (OpClose h) in
          (r, emit (Call (OpClose h) r)
                (set_fds (<[h := mkFile (fname o) false]> (fds w)) w))
      end
  end.

Definition append_bytes (p : list Byte.byte) (c : Content) : Content :=
  match c with
  | Plain d => Plain (d ++ p)
  | Archive es b => Archive es b
  end.

(** [f.Write(p)] on a file opened for appending: the bytes go to the end of
    the file; a failing call writes nothing. *)
Definition file_Write (f : option nat) (p : list Byte.byte) (w : World)
  : (Z * option error) * World :=
  match f with
  | None => ((0, Some ErrInvalid), w)
  | Some h =>
      match open_file h w with
      | None => ((0, Some ErrClosed), emit (Call (OpWrite h p) (Some ErrClosed)) w)
      | Some o =>
          match faults w (OpWrite h p) with
          | Some e => ((0, Some e), emit (Call (OpWrite h p) (Some e)) w)
          | None =>
              ((Z.of_nat (length p), None),
               emit (Call (OpWrite h p) None)
                 (set_files (alter (append_bytes p) (fname o) (files w)) w))
          end
      end
  end.

(** [f.Name()]; the code calls it on a file that is not nil. *)
Definition file_Name (f : option nat) (w : World) : string :=
  match f with
  | Some h => match fds w !! h with Some o => fname o | None => "" end
  | None => ""
  end.

(** [go compressFile(src)]: the task is started and left to the scheduler. *)
Definition go_compressFile (src : string) (w : World) : World :=
  emit (Go src) (set_goroutines (goroutines w ++ [src]) w).

(** ** [rotation.go]: the sink *)

Record fileRotator : Set := mkRotator {
  path : string;
  file : option nat;
  date : Time;
  compress : bool
}.

Definition set_date (r : fileRotator) (d : Time) : fileRotator :=
  mkRotator (path r) (file r) d (compress r).

Definition set_file (r : fileRotator) (f : option nat) : fileRotator :=
  mkRotator (path r) f (date r) (compress r).

(** [func (r *fileRotator) openNew(onDate time.Time) error] *)
Definition openNew (r : fileRotator) (onDate : Time) (w : World)
  : option error * fileRotator * World :=
  let r := set_date r onDate in
  let '(serr, w) := os_Stat (path r) w in
  let '(merr, w) := if is_not_exist serr then os_MkdirAll (path r) w
                    else (None, w) in
  match merr with
  | Some e => (Some e, r, w)
  | None =>
      let filename := Join (path r) (Format (date r) +:+ ".log") in
      match os_OpenFile filename w with
      | (Err e, w) => (Some e, r, w)
      | (Ok h, w) => (None, set_file r (Some h), w)
      end
  end.

(** [func (r *fileRotator) needRotate() bool]: the three comparisons are
    evaluated from left to right, each with its own clock reading, and the
    first one that holds ends the evaluation. *)
Definition needRotate (r : fileRotator) (w : World) : bool * World :=
  let '(t1, w) := time_Now w in
  if negb (Day (date r) =? Day t1) then (true, w)
  else
    let '(t2, w) := time_Now w in
    if negb (Month (date r) =? Month t2) then (true, w)
    else
      let '(t3, w) := time_Now w in
      (negb (Year (date r) =? Year t3), w).

(** [func (r *fileRotator) rotate() error] *)
Definition rotate (r : fileRotator) (w : World)
  : option error * fileRotator * World :=
  match file_Sync (file r) w with
  | (Some e, w) => (Some e, r, w)
  | (None, w) =>
      match file_Close (file r) w with
      | (Some e, w) => (Some e, r, w)
      | (None, w) =>
          let w := if compress r
                   then go_compressFile (file_Name (file r) w) w
                   else w in
          let '(now, w) := time_Now w in
          match openNew r now w with
          | (Some e, r, w) => (Some e, r, w)
          | (None, r, w) => (None, r, w)
          end
      end
  end.

(** [func (r *fileRotator) Write(p []byte) (n int, err error)] *)
Definition Write (r : fileRotator) (p : list Byte.byte) (w : World)
  : (Z * option error) * fileRotator * World :=
  let '(oerr, r, w) :=
    match file r with
    | None => let '(now, w) := time_Now w in openNew r now w
    | Some _ => (None, r, w)
    end in
  match oerr with
  | Some e => ((0, Some e), r, w)
  | None =>
      let '(need, w) := needRotate r w in
      let '(rerr, r, w) := if need then rotate r w else (None, r, w) in
      match rerr with
      | Some e => ((0, Some e), r, w)
      | None => let '(res, w) := file_Write (file r) p w in (res, r, w)
      end
  end.

(** [func (r *fileRotator) Close() error] *)
Definition Close (r : fileRotator) (w : World)
  : option error * fileRotator * World :=
  match file r with
  | None => (None, r, w)
  | Some _ =>
      match file_Sync (file r) w with
      | (Some e, w) => (Some e, r, w)
      | (None, w) =>
          match file_Close (file r) w with
          | (Some e, w) => (Some e, r, w)
          | (None, w) => (None, r, w)
          end
      end
  end.

(** ** [rotation.go]: the compression worker *)

(** The bytes [io.Copy] reads from a file; the encoding of an archive is
    not modelled, only log files are compressed. *)
Definition raw (c : Content) : list Byte.byte :=
  match c with Plain d => d | Archive _ _ => [] end.

(** [f.Stat()], reduced to what [zip.FileInfoHeader] keeps of it: the base
    name and the size. *)
Definition file_Stat (h : nat) (w : World) : res (string * Z) * World :=
  let r := match open_file h w with
           | None => Err ErrClosed
           | Some o =>
               match faults w (OpFstat h) with
               | Some e => Err e
               | None =>
                   Ok (Base (fname o),
                       Z.of_nat (length (raw (default (Plain []) (files w !! fname o)))))
               end
           end in
  (r, emit (Call (OpFstat h) (match r with Err e => Some e | Ok _ => None end)) w).

(** [zip.FileInfoHeader(info)]. *)
Definition zip_FileInfoHeader (info : string * Z) (w : World)
  : res ZipEntry * World :=
  match faults w (OpFileInfoHeader (fst info)) with
  | Some e => (Err e, emit (Call (OpFileInfoHeader (fst info)) (Some e)) w)
  | None => (Ok (mkZipEntry (fst info) (snd info) []),
             emit (Call (OpFileInfoHeader (fst info)) None) w)
  end.

(** [zipWriter.CreateHeader(header)]: a new entry of the archive that is
    being written to the file [hz]; [zw] holds the entries so far. *)
Definition zip_CreateHeader (hz : nat) (header : ZipEntry) (zw : list ZipEntry)
  (w : World) : option error * list ZipEntry * World :=
  match faults w (OpZipCreateHeader hz) with
  | Some e => (Some e, zw, emit (Call (OpZipCreateHeader hz) (Some e)) w)
  | None => (None, zw ++ [header], emit (Call (OpZipCreateHeader hz) None) w)
  end.

Definition fill_last (d : list Byte.byte) (zw : list ZipEntry) : list ZipEntry :=
  match rev zw with
  | [] => []
  | e :: es => rev es ++ [mkZipEntry (zname e) (zsize e) (zdata e ++ d)]
  end.

(** [io.Copy(writer, file)]: the bytes of the source go into the entry that
    was created last. *)
Definition io_Copy (src : nat) (zw : list ZipEntry) (w : World)
  : option error * list ZipEntry * World :=
  match faults w (OpZipCopy src) with
  | Some e => (Some e, zw, emit (Call (OpZipCopy src) (Some e)) w)
  | None =>
      let d := match open_file src w with
               | Some o => raw (default (Plain []) (files w !! fname o))
               | None => []
               end in
      (None, fill_last d zw, emit (Call (OpZipCopy src) None) w)
  end.

(** [zipWriter.Close()]: the buffered entries and the central directory are
    written to the archive file; when that fails the file is left without
    its directory. *)
Definition zip_Close (hz : nat) (zw : list ZipEntry) (w : World)
  : option error * World :=
  let r := faults w (OpZipClose hz) in
  let done := match r with None => true | Some _ => false end in
  (r, emit (Call (OpZipClose hz) r)
        (set_files (<[file_Name (Some hz) w := Archive zw done]> (files w)) w)).

(** [func compressFile(src string)].  The deferred calls run, last one
    first, at every return that follows their [defer] statement. *)
Definition compressFile (src : string) (w : World) : World :=
  match os_Open src w with
  | (Err _, w) => w
  | (Ok file, w) =>
      (* defer file.Close() *)
      match os_Create (src +:+ ".zip") w with
      | (Err _, w) => snd (file_Close (Some file) w)
      | (Ok zipFile, w) =>
          (* defer zipFile.Close(); defer zipWriter.Close() *)
          let deferred (zw : list ZipEntry) (w : World) : World :=
            let w := snd (zip_Close zipFile zw w) in
            let w := snd (file_Close (Some zipFile) w) in
            snd (file_Close (Some file) w) in
          match file_Stat file w with
          | (Err _, w) => deferred [] w
          | (Ok info, w) =>
              match zip_FileInfoHeader info w with
              | (Err _, w) => deferred [] w
              | (Ok header, w) =>
                  match zip_CreateHeader zipFile header [] w with
                  | (Some _, zw, w) => deferred zw w
                  | (None, zw, w) =>
                      match io_Copy file zw w with
                      | (Some _, zw, w) => deferred zw w
                      | (None, zw, w) =>
                          let w := snd (file_Close (Some file) w) in
                          let w := snd (os_Remove src w) in
                          deferred zw w
                      end
                  end
              end
          end
      end
  end.

(** The scheduler runs the [i]-th task that was started and not yet run. *)
Definition run_goroutine (i : nat) (w : World) : World :=
  match goroutines w !! i with
  | Some src => compressFile src (set_goroutines (delete i (goroutines w)) w)
  | None => w
  end.

(** ** The logging engine the facade wraps

    [zap] is a collaborator of the repository.  Its loggers are immutable
    values: [With] and [Sugar] clone the receiver, and both dereference it,
    so that they panic on a nil logger ([With] with no field returns the
    receiver as it is).  A panic is the result [None]. *)
Module zap.

(** An [interface{}] value given for a field. *)
Inductive Any : Set :=
| AnyNil
| AnyBool (b : bool)
| AnyInt (z : Z)
| AnyString (s : string).

(** [zap.Any(key, value)]. *)
Record Field : Set := mkField { Key : string; Value : Any }.

Inductive Level : Set :=
  DebugLevel | InfoLevel | WarnLevel | ErrorLevel
| DPanicLevel | PanicLevel | FatalLevel.

Inductive Encoder : Set := ConsoleEncoder | JSONEncoder.

(** Where a core writes: the standard output, or the sink at an address
    of the heap of rotators. *)
Inductive WriteSyncer : Set :=
| Stdout
| Sink (r : nat).

Record Core : Set := mkCore {
  enc : Encoder;
  out : WriteSyncer;
  lvl : Level;
  context : list Field
}.

Record Logger : Set := mkLogger {
  cores : list Core;
  addCaller : bool;
  callerSkip : Z
}.

Record SugaredLogger : Set := mkSugared { base : Logger }.

Definition core_With (fields : list Field) (c : Core) : Core :=
  mkCore (enc c) (out c) (lvl c) (context c ++ fields).

(** [func (log *Logger) With(fields ...Field) *Logger] *)
Definition With (log : option Logger) (fields : list Field)
  : option (option Logger) :=
  match fields with
  | [] => Some log
  | _ =>
      match log with
      | None => None
      | Some l =>
          Some (Some (mkLogger (map (core_With fields) (cores l))
                               (addCaller l) (callerSkip l)))
      end
  end.

(** [func (log *Logger) Sugar() *SugaredLogger] *)
Definition Sugar (log : option Logger) : option SugaredLogger :=
  match log with
  | None => None
  | Some l => Some (mkSugared (mkLogger (cores l) (addCaller l) (callerSkip l + 2)))
  end.

End zap.

(** ** [logger.go]: the facade *)
Module logger.

Record Logger : Set := mkLogger {
  path : string;
  level : string;
  structured : bool;
  baseLogger : option zap.Logger;
  sugarLogger : option zap.SugaredLogger;
  rotator : option nat
}.

(** The objects the facade allocates: [Logger] values and sinks, each
    addressed by its index.  A [*Logger] and a [*fileRotator] are such
    addresses. *)
Record Heap : Set := mkHeap {
  loggers : list Logger;
  rotators : list fileRotator
}.

(** [type Option]: a function on a [*Logger], given by what the call
    makes of the [Logger] it points to; [None] when it panics. *)
Definition Option : Type := Logger -> option Logger.

Definition loggerLevelMap : gmap string zap.Level :=
  list_to_map
    [("debug", zap.DebugLevel); ("info", zap.InfoLevel);
     ("warn", zap.WarnLevel); ("error", zap.ErrorLevel);
     ("dpanic", zap.DPanicLevel); ("panic", zap.PanicLevel);
     ("fatal", zap.FatalLevel)].

Definition Path (p : string) : Option :=
  fun l => Some (mkLogger p (level l) (structured l) (baseLogger l)
                          (sugarLogger l) (rotator l)).

Definition Level (lv : string) : Option :=
  fun l =>
    let lv := match loggerLevelMap !! lv with
              | Some _ => lv
              | None => "info"
              end in
    Some (mkLogger (path l) lv (structured l) (baseLogger l)
                   (sugarLogger l) (rotator l)).

Definition Structured (enable : bool) : Option :=
  fun l => Some (mkLogger (path l) (level l) enable (baseLogger l)
                          (sugarLogger l) (rotator l)).

Definition BaseLogger (b : option zap.Logger) : Option :=
  fun l =>
    match zap.Sugar b with
    | None => None
    | Some s => Some (mkLogger (path l) (level l) (structured l) b
                               (Some s) (rotator l))
    end.

Fixpoint apply_options (options : list Option) (l : Logger) : option Logger :=
  match options with
  | [] => Some l
  | o :: os => match o l with
               | Some l' => apply_options os l'
               | None => None
               end
  end.

(** [func NewLogger(options ...Option) *Logger] *)
Definition NewLogger (options : list Option) (σ : Heap) : option (nat * Heap) :=
  match apply_options options (mkLogger "" "info" false None None None) with
  | Some l => Some (length (loggers σ), mkHeap (loggers σ ++ [l]) (rotators σ))
  | None => None
  end.

(** [func (l *Logger) getLoggerLevel() zapcore.Level] *)
Definition getLoggerLevel (l : Logger) : zap.Level :=
  match loggerLevelMap !! level l with
  | Some lv => lv
  | None => zap.DebugLevel
  end.

(** [func (l *Logger) InitLogger(consoleOutputEnable bool)] *)
Definition InitLogger (lp : nat) (consoleOutputEnable : bool) (σ : Heap)
  : option Heap :=
  match loggers σ !! lp with
  | None => None
  | Some l =>
      let cores :=
        if consoleOutputEnable
        then [zap.mkCore zap.ConsoleEncoder zap.Stdout (getLoggerLevel l) []]
        else [] in
      let rp := length (rotators σ) in
      let fileRotator := mkRotator (path l) None zeroTime true in
      let encoder := if structured l then zap.JSONEncoder else zap.ConsoleEncoder in
      let cores := cores ++ [zap.mkCore encoder (zap.Sink rp) (getLoggerLevel l) []] in
      let base := zap.mkLogger cores true 1 in
      match zap.Sugar (Some base) with
      | None => None
      | Some sugar =>
          Some (mkHeap
                  (<[lp := mkLogger (path l) (level l) (structured l)
                                    (Some base) (Some sugar) (Some rp)]> (loggers σ))
                  (rotators σ ++ [fileRotator]))
      end
  end.

(** [func (l *Logger) WithFields(fields map[string]interface{}) *Logger];
    [fields] lists the entries of the map in the order the [range]
    statement yields them. *)
Definition WithFields (lp : nat) (fields : list (string * zap.Any)) (σ : Heap)
  : option (nat * Heap) :=
  match loggers σ !! lp with
  | None => None
  | Some l =>
      let zapFields := map (fun kv => zap.mkField (fst kv) (snd kv)) fields in
      match zap.With (baseLogger l) zapFields with
      | None => None
      | Some newBaseLogger =>
          match zap.Sugar newBaseLogger with
          | None => None
          | Some sugar =>
              Some (length (loggers σ),
                    mkHeap (loggers σ ++
                              [mkLogger (path l) (level l) (structured l)
                                        newBaseLogger (Some sugar) (rotator l)])
                           (rotators σ))
          end
      end
  end.

(** The options a caller can build: the results of the four functions
    that return an [Option]. *)
Inductive OptionCall : Set :=
| CallPath (p : string)
| CallLevel (lv : string)
| CallStructured (enable : bool)
| CallBaseLogger (b : option zap.Logger).

Definition option_of (c : OptionCall) : Option :=
  match c with
  | CallPath p => Path p
  | CallLevel lv => Level lv
  | CallStructured enable => Structured enable
  | CallBaseLogger b => BaseLogger b
  end.

(** [func (l *Logger) Close() error].  [sync] is what
    [l.sugarLogger.Sync()] returns; the call dereferences its receiver
    and panics on nil.  The engine asks every core to flush its output:
    the sink has no [Sync] method and is wrapped by [zapcore.AddSync]
    with one that does nothing, so that the call does not reach the
    sink. *)
Definition Close (lp : nat) (sync : option error) (σ : Heap) (w : World)
  : option (option error * Heap * World) :=
  match loggers σ !! lp with
  | None => None
  | Some l =>
      match sugarLogger l with
      | None => None
      | Some _ =>
          match sync with
          | Some err => Some (Some err, σ, w)
          | None =>
              match rotator l with
              | None => Some (None, σ, w)
              | Some rp =>
                  match rotators σ !! rp with
                  | None => None
                  | Some r =>
                      let '(err, r, w) := Close r w in
                      Some (err, mkHeap (loggers σ) (<[rp := r]> (rotators σ)), w)
                  end
              end
          end
      end
  end.

End logger.

(** ** Vocabulary of the properties *)

(** A rotation starts by flushing the open file, and nothing else in the
    sink's [Write] path calls [Sync]: the rotations of a run are the
    [Sync] calls of its trace. *)
Definition is_sync (e : Event) : bool :=
  match e with Call (OpSync _) _ => true | _ => false end.

Definition rotations (evs : list Event) : nat :=
  length (List.filter is_sync evs).

(** The attempts to open a log file. *)
Definition is_open_call (e : Event) : bool :=
  match e with Call (OpOpenFile _) _ => true | _ => false end.

Definition opens (evs : list Event) : nat :=
  length (List.filter is_open_call evs).

(** A failed attempt to create the directory or to open the file. *)
Definition is_open_failure (e : Event) : bool :=
  match e with
  | Call (OpMkdirAll _) (Some _) | Call (OpOpenFile _) (Some _) => true
  | _ => false
  end.

(** The events hold a failed attempt to create the directory or to open
    the file. *)
Definition open_failed (evs : list Event) : bool := existsb is_open_failure evs.

(** The attempts to create a directory. *)
Definition is_mkdir (e : Event) : bool :=
  match e with Call (OpMkdirAll _) _ => true | _ => false end.

Definition mkdirs (evs : list Event) : nat :=
  length (List.filter is_mkdir evs).

(** The error result of an event. *)
Definition event_error (ev : Event) : option error :=
  match ev with Call _ r => r | Go _ => None end.

(** The calls [openNew] makes before it opens the file. *)
Definition is_probe (e : Event) : bool :=
  match e with
  | Call (OpStat _) _ | Call (OpMkdirAll _) None => true
  | _ => false
  end.

Definition same_dateb (a b : Time) : bool :=
  (Day a =? Day b) && (Month a =? Month b) && (Year a =? Year b).

(** The next [n] readings of the clock fall on the date of [now]. *)
Definition steady (w : World) (n : nat) (now : Time) : Prop :=
  forallb (fun k => same_dateb (clock w (ticks w + k)) now) (seq 0 n) = true.

(** Field-wise difference of two dates. *)
Definition differs (a b : Time) : Prop :=
  Day a <> Day b \/ Month a <> Month b \/ Year a <> Year b.

Definition no_faults (w : World) : Prop := forall op, faults w op = None.

(** *** The lifetime of a sink *)

(** What happens to a sink and its world: the calls of its two methods,
    and the moves of the environment, which changes the calls that fail
    and the content of the file system and runs the tasks started. *)
Inductive Action : Type :=
| DoWrite (p : list Byte.byte)
| DoClose
| EnvFaults (f : Op -> option error)
| EnvFs (d : list string) (f : gmap string Content)
| EnvRun (i : nat).

Definition act (s : fileRotator * World) (a : Action) : fileRotator * World :=
  match a with
  | DoWrite p => let '(_, r, w) := Write (fst s) p (snd s) in (r, w)
  | DoClose => let '(_, r, w) := Close (fst s) (snd s) in (r, w)
  | EnvFaults f => (fst s, set_faults f (snd s))
  | EnvFs d f => (fst s, set_dirs d (set_files f (snd s)))
  | EnvRun i => (fst s, run_goroutine i (snd s))
  end.

Definition run (l : list Action) (s : fileRotator * World) : fileRotator * World :=
  fold_left act l s.

(** The file the sink holds open is the file of its date. *)
Definition name_inv (s : fileRotator * World) : Prop :=
  forall h f, file (fst s) = Some h -> open_file h (snd s) = Some f ->
    fname f = Join (path (fst s)) (Format (date (fst s)) +:+ ".log").

(** The world [rotate] hands to [openNew] once the old file [o] behind the
    handle [h] is flushed and closed. *)
Definition closed_world (r : fileRotator) (h : nat) (o : File) (w : World) : World :=
  mkWorld (clock w) (S (ticks w)) (faults w) (dirs w) (files w)
    (<[h := mkFile (fname o) false]> (fds w))
    (goroutines w ++ (if compress r then [fname o] else []))
    (trace w ++ [Call (OpSync h) None; Call (OpClose h) None]
             ++ (if compress r then [Go (fname o)] else [])).

(** A handle that was closed. *)
Definition closed_handle (h : nat) (w : World) : Prop :=
  exists f, fds w !! h = Some f /\ fopen f = false.

(** No call fails but, possibly, the one that completes an archive. *)
Definition is_zip_close (op : Op) : bool :=
  match op with OpZipClose _ => true | _ => false end.

Definition only_finalize_fails (w : World) : Prop :=
  forall op, is_zip_close op = false -> faults w op = None.

(** The file objects below [n] are in [w'] what they were in [w], and no
    object was dropped. *)
Definition keeps (n : nat) (w w' : World) : Prop :=
  (length (fds w) <= length (fds w'))%nat /\
  forall h, (h < n)%nat -> fds w' !! h = fds w !! h.

(** What the worker keeps while it writes the archive of [src] through the
    handle [hz]: the handle is the one of the archive file, and the other
    files are what they were in [w0]; so is the source as long as
    [with_src] is set. *)
Definition worker_frame (with_src : bool) (src : string) (hz : nat)
  (w0 w : World) : Prop :=
  (exists f, fds w !! hz = Some f /\ fname f = src +:+ ".zip") /\
  forall name, (with_src = false -> name <> src) -> name <> src +:+ ".zip" ->
    files w !! name = files w0 !! name.

(** The handle of the sink, when it has one, is a file object of the
    world, and one that is named after the date while it is open. *)
Definition sink_inv (s : fileRotator * World) : Prop :=
  forall h, file (fst s) = Some h ->
    exists f, fds (snd s) !! h = Some f /\
      (fopen f = true -> fname f = logName (path (fst s)) (date (fst s))).

(** What the worker has no part in: the calls that fail, the directories,
    the clock and its readings, and the tasks started. *)
Definition same_env (w w' : World) : Prop :=
  faults w' = faults w /\ dirs w' = dirs w /\ clock w' = clock w /\
  ticks w' = ticks w /\ goroutines w' = goroutines w.

(** *** Scenarios *)

Definition quiet : Op -> option error := fun _ => None.

(** The call that opens [name] is refused. *)
Definition deny_open (name : string) : Op -> option error :=
  fun op => match op with
            | OpOpenFile n => if String.eqb n name then Some ErrPermission else None
            | _ => None
            end.

(** The archive cannot be completed: the disk is full when the writer is
    closed. *)
Definition disk_full_at_close : Op -> option error :=
  fun op => match op with
            | OpZipClose _ => Some ErrNoSpace
            | _ => None
            end.

Definition hello : list Byte.byte := list_byte_of_string "hello".
Definition logs : string := "/tmp/logs".
Definition march5 : Time := mkTime 2024 3 5 0.
Definition march6 : Time := mkTime 2024 3 6 0.

(** A sink that was never written to. *)
Definition sink_new : fileRotator := mkRotator logs None zeroTime true.

(** A sink that holds the file of March 5, open, and its world on the day
    of [now]. *)
Definition sink_open : fileRotator := mkRotator logs (Some 0%nat) march5 true.

Definition world_open (now : Time) (f : Op -> option error) : World :=
  mkWorld (fun _ => now) 0 f [logs]
    {[ logName logs march5 := Plain hello ]}
    [mkFile (logName logs march5) true] [] [].

(** A world without any file object. *)
Definition world_new (now : Time) (f : Op -> option error) : World :=
  mkWorld (fun _ => now) 0 f [logs] ∅ [] [] [].

(** The world after the rotation away from the file of March 5: the file
    is closed, its compression is about to run. *)
Definition world_rotated (f : Op -> option error) : World :=
  mkWorld (fun _ => march6) 0 f [logs]
    {[ logName logs march5 := Plain hello ]}
    [mkFile (logName logs march5) false] [] [].

(** The worker runs while the archive cannot be completed. *)
Definition interrupted_archive : World :=
  compressFile (logName logs march5) (world_rotated disk_full_at_close).

(** The open sink is closed, on the day of its file. *)
Definition closed_once : option error * fileRotator * World :=
  Close sink_open (world_open march5 quiet).

(** The open sink is written to on the next day while the file of that
    day cannot be opened. *)
Definition refused_rotation : (Z * option error) * fileRotator * World :=
  Write sink_open hello (world_open march6 (deny_open (logName logs march6))).

(** The new sink is written to while its file cannot be opened. *)
Definition refused_first_open : (Z * option error) * fileRotator * World :=
  Write sink_new hello (world_new march5 (deny_open (logName logs march5))).

(** A logger that was created and not initialised. *)
Definition heap_created : logger.Heap :=
  match logger.NewLogger [] (logger.mkHeap [] []) with
  | Some (_, σ) => σ
  | None => logger.mkHeap [] []
  end.


Definition two_fields : list (string * zap.Any) :=
  [("key1", zap.AnyString "value1"); ("key2", zap.AnyInt 42)].

(** * Properties *)
(** ** The trace *)

Lemma new_events_app (w w' : World) (evs : list Event) :
  trace w' = trace w ++ evs -> new_events w w' = evs.
Proof.
  intros H. unfold new_events. rewrite H. apply drop_app_length.
Qed.

Lemma new_events_refl (w : World) : new_events w w = [].
Proof. apply new_events_app. symmetry. apply app_nil_r. Qed.

Lemma rotations_app (a b : list Event) :
  rotations (a ++ b) = (rotations a + rotations b)%nat.
Proof. unfold rotations. rewrite List.filter_app. apply length_app. Qed.

Lemma opens_app (a b : list Event) :
  opens (a ++ b) = (opens a + opens b)%nat.
Proof. unfold opens. rewrite List.filter_app. apply length_app. Qed.

(** ** Dates *)

Lemma same_dateb_spec (a b : Time) : same_dateb a b = true <-> same_date a b.
Proof.
  unfold same_dateb, same_date.
  rewrite !andb_true_iff, !Z.eqb_eq. tauto.
Qed.

Lemma steady_spec (w : World) (n : nat) (now : Time) :
  steady w n now <->
  forall k, (k < n)%nat -> same_date (clock w (ticks w + k)) now.
Proof.
  unfold steady. rewrite forallb_forall. split.
  - intros H k Hk. apply same_dateb_spec, H, in_seq. lia.
  - intros H k Hk. apply in_seq in Hk. apply same_dateb_spec, H. lia.
Qed.

Lemma steady_le (w : World) (n m : nat) (now : Time) :
  (m <= n)%nat -> steady w n now -> steady w m now.
Proof.
  rewrite !steady_spec. intros Hle H k Hk. apply H. lia.
Qed.

Lemma Format_same_date (a b : Time) : same_date a b -> Format a = Format b.
Proof.
  intros (Hd & Hm & Hy). unfold Format. now rewrite Hd, Hm, Hy.
Qed.

(** ** [needRotate] *)

Lemma needRotate_frame (r : fileRotator) (w : World) :
  let w' := snd (needRotate r w) in
  trace w' = trace w /\ fds w' = fds w /\ files w' = files w /\
  dirs w' = dirs w /\ faults w' = faults w /\ clock w' = clock w /\
  goroutines w' = goroutines w /\
  (ticks w < ticks w' <= ticks w + 3)%nat.
Proof.
  unfold needRotate, time_Now; simpl.
  repeat match goal with |- context [if ?c then _ else _] => destruct c end;
    simpl; repeat split; lia.
Qed.

Lemma needRotate_steady (r : fileRotator) (w : World) (now : Time) :
  steady w 3 now ->
  fst (needRotate r w) = true <-> differs (date r) now.
Proof.
  rewrite steady_spec. intros H.
  pose proof (H 0%nat ltac:(lia)) as (Hd0 & _ & _).
  pose proof (H 1%nat ltac:(lia)) as (_ & Hm1 & _).
  pose proof (H 2%nat ltac:(lia)) as (_ & _ & Hy2).
  rewrite Nat.add_0_r in Hd0. rewrite !Nat.add_1_r in Hm1.
  replace (ticks w + 2)%nat with (S (S (ticks w))) in Hy2 by lia.
  unfold needRotate, time_Now, differs; simpl.
  rewrite Hd0.
  destruct (Z.eqb_spec (Day (date r)) (Day now)); simpl; [|tauto].
  rewrite Hm1.
  destruct (Z.eqb_spec (Month (date r)) (Month now)); simpl; [|tauto].
  rewrite Hy2.
  destruct (Z.eqb_spec (Year (date r)) (Year now)); simpl; [|tauto].
  split; [discriminate | tauto].
Qed.
(** ** [openNew] *)

(** What a call of [openNew] does: it probes the directory, then either
    opens the file of the date and stores the handle, or fails on the
    directory or on the file and keeps the handle it had; the date is
    stored in both cases. *)
Lemma openNew_spec (r r' : fileRotator) (d : Time) (w w' : World)
  (e : option error) :
  openNew r d w = (e, r', w') ->
  exists pre last,
    trace w' = trace w ++ pre ++ [last] /\
    forallb is_probe pre = true /\
    ticks w' = ticks w /\ clock w' = clock w /\ faults w' = faults w /\
    goroutines w' = goroutines w /\
    match e with
    | None =>
        last = Call (OpOpenFile (logName (path r) d)) None /\
        r' = mkRotator (path r) (Some (length (fds w))) d (compress r) /\
        faults w (OpOpenFile (logName (path r) d)) = None /\
        fds w' = fds w ++ [mkFile (logName (path r) d) true] /\
        files w' = match files w !! logName (path r) d with
                   | Some _ => files w
                   | None => <[logName (path r) d := Plain []]> (files w)
                   end
    | Some e0 =>
        (last = Call (OpMkdirAll (path r)) (Some e0) /\
         faults w (OpMkdirAll (path r)) = Some e0 \/
         last = Call (OpOpenFile (logName (path r) d)) (Some e0) /\
         faults w (OpOpenFile (logName (path r) d)) = Some e0) /\
        r' = set_date r d /\ fds w' = fds w /\ files w' = files w
    end.
Proof.
  unfold openNew, os_Stat, os_MkdirAll, os_OpenFile, new_file, logName; simpl.
  intros H.
  destruct (faults w (OpStat (path r))) as [es|] eqn:Hs;
    [destruct es|destruct (path_exists (path r) w)]; simpl in H.
  all: try (destruct (faults w (OpMkdirAll (path r))) as [em|] eqn:Hm; simpl in H).
  all: try (destruct (faults w (OpOpenFile (Join (path r) (Format d +:+ ".log")))) as [eo|] eqn:Ho; simpl in H).
  all: inversion H; subst; clear H; simpl.
  all: rewrite <- ?app_assoc; simpl.
  all: try (eexists [_], _; split; [reflexivity|]; simpl; repeat split; auto; fail).
  all: try (eexists [_; _], _; split; [reflexivity|]; simpl; repeat split; auto; fail).
  all: try (eexists [], _; split; [reflexivity|]; simpl; repeat split; auto; fail).
Qed.
(** ** [rotate] *)

(** The three ways through [rotate]: the flush fails and nothing else
    happens; the flush succeeds and the close fails; both succeed, the
    task is started when [compress] is set, and [openNew] decides. *)
Lemma rotate_spec (r r' : fileRotator) (w w' : World) (h : nat)
  (e : option error) :
  file r = Some h ->
  rotate r w = (e, r', w') ->
  (exists e0, e = Some e0 /\ r' = r /\
     w' = emit (Call (OpSync h) (Some e0)) w /\
     (open_file h w = None /\ e0 = ErrClosed \/
      is_Some (open_file h w) /\ faults w (OpSync h) = Some e0)) \/
  (exists e0 o, open_file h w = Some o /\ e = Some e0 /\ r' = r /\
     faults w (OpSync h) = None /\ faults w (OpClose h) = Some e0 /\
     w' = emit (Call (OpClose h) (Some e0))
            (set_fds (<[h := mkFile (fname o) false]> (fds w))
               (emit (Call (OpSync h) None) w))) \/
  (exists o, open_file h w = Some o /\
     faults w (OpSync h) = None /\ faults w (OpClose h) = None /\
     openNew r (clock w (ticks w)) (closed_world r h o w) = (e, r', w')).
Proof.
  intros Hf. unfold rotate, file_Sync, file_Close. rewrite Hf.
  destruct (open_file h w) as [o|] eqn:Ho.
  - destruct (faults w (OpSync h)) as [es|] eqn:Hs.
    + intros H; inversion H; subst. left. eexists; repeat split; eauto.
    + assert (Ho' : open_file h (emit (Call (OpSync h) None) w) = Some o)
        by exact Ho.
      rewrite Ho'. cbn [faults emit].
      destruct (faults w (OpClose h)) as [ec|] eqn:Hc.
      * intros H; inversion H; subst. right; left. eauto 12.
      * intros H. right; right. exists o. repeat split; auto.
        rewrite <- H. unfold closed_world, go_compressFile, file_Name, time_Now.
        cbn [fds emit set_fds set_goroutines clock ticks faults dirs files goroutines trace].
        rewrite list_lookup_insert_eq
          by (unfold open_file in Ho; destruct (fds w !! h) eqn:E;
              [eapply lookup_lt_Some; eauto | discriminate]).
        cbn [fname].
        destruct (compress r); cbn [fds emit set_fds set_goroutines clock ticks faults dirs files goroutines trace];
          rewrite <- ?app_assoc, ?app_nil_r; cbn [app];
          destruct (openNew _ _ _) as [[[?|] ?] ?]; reflexivity.
  - intros H; inversion H; subst. left. eexists; repeat split; eauto.
Qed.
(** ** [file.Write] *)

Lemma file_Write_spec (h : nat) (p : list Byte.byte) (w w' : World)
  (res : Z * option error) :
  file_Write (Some h) p w = (res, w') ->
  trace w' = trace w ++ [Call (OpWrite h p) (snd res)] /\
  fds w' = fds w /\ dirs w' = dirs w /\ ticks w' = ticks w /\
  clock w' = clock w /\ faults w' = faults w /\
  goroutines w' = goroutines w /\
  match snd res with
  | None => exists o, open_file h w = Some o /\
              fst res = Z.of_nat (length p) /\
              files w' = alter (append_bytes p) (fname o) (files w)
  | Some e => fst res = 0 /\ files w' = files w /\
              (open_file h w = None /\ e = ErrClosed \/
               is_Some (open_file h w) /\ faults w (OpWrite h p) = Some e)
  end.
Proof.
  unfold file_Write.
  destruct (open_file h w) as [o|] eqn:Ho;
    [destruct (faults w (OpWrite h p)) eqn:Hw|];
    intros H; inversion H; subst; simpl; repeat split; eauto.
Qed.

Lemma rotations_probes (evs : list Event) :
  forallb is_probe evs = true -> rotations evs = 0%nat.
Proof.
  unfold rotations. induction evs as [|e evs IH]; simpl; [reflexivity|].
  rewrite andb_true_iff. intros [He Hevs].
  destruct e as [[] [|]|]; simpl in *; try discriminate; auto.
Qed.


Lemma opens_probes (evs : list Event) :
  forallb is_probe evs = true -> opens evs = 0%nat.
Proof.
  unfold opens. induction evs as [|e evs IH]; simpl; [reflexivity|].
  rewrite andb_true_iff. intros [He Hevs].
  destruct e as [[] [|]|]; simpl in *; try discriminate; auto.
Qed.
(** ** [Write] *)

(** The ways through [Write] for a sink that holds a handle [h]: no
    rotation and the bytes go to [h]; or a rotation that fails on the
    flush, on the close or in [openNew]; or a rotation that succeeds,
    after which the bytes go to the new handle. *)
Lemma Write_cases (r : fileRotator) (p : list Byte.byte) (w : World) (h : nat) :
  file r = Some h ->
  let need := fst (needRotate r w) in
  let w1 := snd (needRotate r w) in
  (need = false /\
   exists res w', file_Write (Some h) p w1 = (res, w') /\
     Write r p w = (res, r, w')) \/
  (need = true /\
   exists e0,
     (open_file h w = None /\ e0 = ErrClosed \/
      is_Some (open_file h w) /\ faults w (OpSync h) = Some e0) /\
     Write r p w = ((0, Some e0), r, emit (Call (OpSync h) (Some e0)) w1)) \/
  (need = true /\
   exists e0 o, open_file h w = Some o /\
     faults w (OpSync h) = None /\ faults w (OpClose h) = Some e0 /\
     Write r p w =
       ((0, Some e0), r,
        emit (Call (OpClose h) (Some e0))
          (set_fds (<[h := mkFile (fname o) false]> (fds w))
             (emit (Call (OpSync h) None) w1)))) \/
  (need = true /\
   exists o e0 r' w', open_file h w = Some o /\
     faults w (OpSync h) = None /\ faults w (OpClose h) = None /\
     openNew r (clock w (ticks w1)) (closed_world r h o w1) = (Some e0, r', w') /\
     Write r p w = ((0, Some e0), r', w')) \/
  (need = true /\
   exists o r' w2 res w', open_file h w = Some o /\
     faults w (OpSync h) = None /\ faults w (OpClose h) = None /\
     openNew r (clock w (ticks w1)) (closed_world r h o w1) = (None, r', w2) /\
     file_Write (file r') p w2 = (res, w') /\
     Write r p w = (res, r', w')).
Proof.
  intros Hf. unfold Write. rewrite Hf.
  pose proof (needRotate_frame r w) as Hfr.
  destruct (needRotate r w) as [need w1]. cbn [fst snd] in *.
  destruct Hfr as (Htr & Hfd & Hfi & Hdi & Hfa & Hcl & Hgo & Hti).
  assert (Hopen : open_file h w1 = open_file h w)
    by (unfold open_file; now rewrite Hfd).
  destruct need.
  - right. destruct (rotate r w1) as [[e r'] w2] eqn:Hr.
    apply (rotate_spec _ _ _ _ h) in Hr; [|assumption].
    rewrite Hopen, Hfa, Hcl, Hfd in Hr.
    destruct Hr as [(e0 & -> & -> & -> & Hc)
                   |[(e0 & o & Ho & -> & -> & Hs & Hc & ->)
                    |(o & Ho & Hs & Hc & Hon)]].
    + left. split; [reflexivity|]. exists e0. split; auto.
    + right; left. split; [reflexivity|]. exists e0, o. repeat split; auto.
    + right; right. destruct e as [e0|].
      * left. split; [reflexivity|]. exists o, e0, r', w2. repeat split; auto.
      * right. split; [reflexivity|].
        destruct (file_Write (file r') p w2) as [res w3] eqn:Hw.
        exists o, r', w2, res, w3. repeat split; auto.
  - left. split; [reflexivity|]. rewrite Hf.
    destruct (file_Write (Some h) p w1) as [res w3] eqn:Hw.
    exists res, w3. split; reflexivity.
Qed.

(** [Write] on a sink that holds no handle: [openNew] fails and so does
    the call, or it succeeds and the call goes on as on the sink that
    holds the new handle. *)
Lemma Write_none (r : fileRotator) (p : list Byte.byte) (w : World) :
  file r = None ->
  (exists e0 r' w',
     openNew r (clock w (ticks w)) (snd (time_Now w)) = (Some e0, r', w') /\
     Write r p w = ((0, Some e0), r', w')) \/
  (exists r' w',
     openNew r (clock w (ticks w)) (snd (time_Now w)) = (None, r', w') /\
     Write r p w = Write r' p w').
Proof.
  intros Hf. cbn [time_Now snd].
  destruct (openNew r _ _) as [[[e0|] r'] w'] eqn:Ho.
  - left. exists e0, r', w'. split; [reflexivity|].
    unfold Write. rewrite Hf. cbn [time_Now]. rewrite Ho. reflexivity.
  - right. exists r', w'. split; [reflexivity|].
    unfold Write at 1. rewrite Hf. cbn [time_Now]. rewrite Ho.
    apply openNew_spec in Ho.
    destruct Ho as (_ & _ & _ & _ & _ & _ & _ & _ & _ & Hr' & _).
    unfold Write. rewrite Hr'. reflexivity.
Qed.
(** ** Counting rotations *)

(** The events of a call of [Write] on a sink that holds a handle hold one
    [Sync] when [needRotate] answers yes and none otherwise. *)
Lemma Write_some_events (r : fileRotator) (p : list Byte.byte) (w : World)
  (h : nat) :
  file r = Some h ->
  exists evs, trace (snd (Write r p w)) = trace w ++ evs /\
    rotations evs = if fst (needRotate r w) then 1%nat else 0%nat.
Proof.
  intros Hf.
  pose proof (needRotate_frame r w) as (Htr & _). cbn zeta in Htr.
  destruct (Write_cases r p w h Hf)
    as [(-> & res & w' & Hw & ->)
       |[(-> & e0 & _ & ->)
        |[(-> & e0 & o & _ & _ & _ & ->)
         |[(-> & o & e0 & r' & w' & _ & _ & _ & Ho & ->)
          |(-> & o & r' & w2 & res & w' & _ & _ & _ & Ho & Hw & ->)]]]];
    cbn [snd].
  - apply file_Write_spec in Hw. destruct Hw as (Ht & _).
    eexists. rewrite Ht, Htr. split; reflexivity.
  - eexists. cbn [trace emit]. rewrite Htr. split; reflexivity.
  - eexists. cbn [trace emit set_fds]. rewrite Htr, <- app_assoc.
    split; reflexivity.
  - apply openNew_spec in Ho.
    destruct Ho as (pre & last & Ht & Hpre & _ & _ & _ & _ & [[Hl _]|[Hl _]] & _);
      unfold closed_world in Ht; cbn [trace] in Ht; rewrite Htr in Ht;
      eexists; rewrite Ht, <- !app_assoc; (split; [reflexivity|]);
      rewrite !rotations_app, (rotations_probes pre Hpre), Hl;
      destruct (compress r); reflexivity.
  - apply openNew_spec in Ho.
    destruct Ho as (pre & last & Ht & Hpre & _ & _ & _ & _ & Hl & -> & _).
    cbn [file] in Hw. apply file_Write_spec in Hw. destruct Hw as (Ht' & _).
    unfold closed_world in Ht; cbn [trace] in Ht; rewrite Htr in Ht.
    eexists; rewrite Ht', Ht, <- !app_assoc; (split; [reflexivity|]).
    rewrite !rotations_app, (rotations_probes pre Hpre), Hl.
    destruct (compress r); reflexivity.
Qed.

(** A call of [Write] only adds to the trace, and adds at most one
    [Sync]. *)
Lemma Write_events (r : fileRotator) (p : list Byte.byte) (w : World) :
  exists evs, trace (snd (Write r p w)) = trace w ++ evs /\
    (rotations evs <= 1)%nat.
Proof.
  destruct (file r) as [h|] eqn:Hf.
  - destruct (Write_some_events r p w h Hf) as (evs & Ht & Hr).
    exists evs. split; [assumption|].
    rewrite Hr. destruct (fst (needRotate r w)); lia.
  - destruct (Write_none r p w Hf)
      as [(e0 & r' & w' & Ho & ->)|(r' & w' & Ho & ->)];
      apply openNew_spec in Ho;
      destruct Ho as (pre & last & Ht & Hpre & _ & _ & _ & _ & Hcase);
      cbn [time_Now snd trace] in Ht.
    + exists (pre ++ [last]). cbn [snd]. split; [assumption|].
      rewrite rotations_app, (rotations_probes pre Hpre).
      destruct Hcase as ([[-> _] | [-> _]] & _); cbn; lia.
    + destruct Hcase as (-> & -> & _).
      edestruct (Write_some_events
                   (mkRotator (path r) (Some (length (fds (snd (time_Now w)))))
                              (clock w (ticks w)) (compress r)) p w')
        as (evs & Ht' & Hr); [reflexivity|].
      eexists. rewrite Ht', Ht, <- !app_assoc. split; [reflexivity|].
      rewrite !rotations_app, (rotations_probes pre Hpre), Hr.
      destruct (fst (needRotate _ w')); cbn; lia.
Qed.

(** C1. For a call of [Write] on a sink that holds a file, with the
    clock readings of the call falling on the date of [now]: a rotation is
    performed if and only if the day, the month or the year of the stored
    date differs from that of [now]; the three fields are compared one by
    one and nothing else of the two instants is looked at, and no rotation
    occurs when the three are equal. *)
Theorem Write_rotates_iff_date_differs (r : fileRotator) (p : list Byte.byte)
  (w : World) (h : nat) (now : Time) :
  file r = Some h ->
  steady w 3 now ->
  (rotations (new_events w (snd (Write r p w))) = 1%nat <->
   differs (date r) now) /\
  (same_date (date r) now ->
   rotations (new_events w (snd (Write r p w))) = 0%nat).
Proof.
  intros Hf Hs.
  destruct (Write_some_events r p w h Hf) as (evs & Ht & Hr).
  rewrite (new_events_app _ _ _ Ht), Hr.
  pose proof (needRotate_steady r w now Hs) as Hn.
  destruct (fst (needRotate r w)); split.
  - tauto.
  - intros (Hd & Hm & Hy). assert (differs (date r) now) as [?|[?|?]] by tauto;
      contradiction.
  - split; [discriminate|]. intros H. apply Hn in H. discriminate.
  - reflexivity.
Qed.
(** ** File names *)


Lemma utod_not_sep (a : Z) : 0 <= a < 10 -> is_sep (utod a) = false.
Proof.
  intros Ha.
  assert (a = 0 \/ a = 1 \/ a = 2 \/ a = 3 \/ a = 4 \/ a = 5 \/ a = 6 \/
          a = 7 \/ a = 8 \/ a = 9) as H by lia.
  repeat (destruct H as [->|H]; [reflexivity|]). subst. reflexivity.
Qed.

(** The ten characters of a valid date. *)
Lemma Format_valid (t : Time) :
  valid_date t ->
  Format t =
  String (utod (Year t / 1000)) (String (utod (Year t / 100 mod 10))
    (String (utod (Year t / 10 mod 10)) (String (utod (Year t mod 10))
    (String "_" (String (utod (Month t / 10)) (String (utod (Month t mod 10))
    (String "_" (String (utod (Day t / 10)) (String (utod (Day t mod 10))
    ""))))))))).
Proof.
  intros (Hy & Hm & Hd). unfold Format, appendInt.
  rewrite !Z.abs_eq by lia.
  replace (Year t <? 0) with false by (symmetry; apply Z.ltb_ge; lia).
  replace (Month t <? 0) with false by (symmetry; apply Z.ltb_ge; lia).
  replace (Day t <? 0) with false by (symmetry; apply Z.ltb_ge; lia).
  replace (Year t <? 10000) with true by (symmetry; apply Z.ltb_lt; lia).
  replace (Month t <? 100) with true by (symmetry; apply Z.ltb_lt; lia).
  replace (Day t <? 100) with true by (symmetry; apply Z.ltb_lt; lia).
  reflexivity.
Qed.

Lemma string_app_assoc (a b c : string) : (a +:+ b) +:+ c = a +:+ (b +:+ c).
Proof.
  induction a as [|x a IH]; [reflexivity|].
  change (String x ((a +:+ b) +:+ c) = String x (a +:+ (b +:+ c))).
  now rewrite IH.
Qed.

Lemma elems_not_nil (s : string) : elems s <> [].
Proof.
  destruct s as [|c s]; simpl; [discriminate|].
  destruct (is_sep c); [discriminate|]. destruct (elems s); discriminate.
Qed.

Lemma elems_no_sep (n : string) : no_sep n = true -> elems n = [n].
Proof.
  induction n as [|c n IH]; simpl; [reflexivity|].
  rewrite andb_true_iff, negb_true_iff. intros [Hc Hn].
  rewrite Hc, (IH Hn). reflexivity.
Qed.

Lemma elems_app_sep (a b : string) :
  elems (a +:+ String "/" b) = elems a ++ elems b.
Proof.
  induction a as [|c a IH]; [reflexivity|].
  change (String c a +:+ String "/" b) with (String c (a +:+ String "/" b)).
  simpl. rewrite IH. destruct (is_sep c); [reflexivity|].
  destruct (elems a) eqn:E; [now apply elems_not_nil in E|reflexivity].
Qed.

Lemma clean_step_plain (rooted : bool) (out : list string) (n : string) :
  plain n -> clean_step rooted out n = n :: out.
Proof.
  intros (_ & H0 & H1 & H2). unfold clean_step.
  apply String.eqb_neq in H0, H1, H2. now rewrite H0, H1, H2.
Qed.

Lemma join_sep_snoc (l : list string) (n : string) :
  join_sep (l ++ [n]) = join_pre l +:+ n.
Proof.
  induction l as [|e l IH]; [reflexivity|].
  change (join_sep (e :: (l ++ [n])) = (e +:+ "/" +:+ join_pre l) +:+ n).
  assert (Hc : join_sep (e :: (l ++ [n])) = e +:+ "/" +:+ join_sep (l ++ [n]))
    by (destruct (l ++ [n]) eqn:E; [now destruct l|reflexivity]).
  rewrite Hc, IH, !string_app_assoc. reflexivity.
Qed.

(** [Join] leaves a plain name as it is behind the directory. *)
Lemma Join_plain (dir n : string) :
  plain n -> Join dir n = dir_prefix dir +:+ n.
Proof.
  intros Hp. pose proof Hp as (Hs & H0 & _).
  unfold Join, dir_prefix.
  destruct (String.eqb_spec dir "") as [->|Hd].
  - apply String.eqb_neq in H0. rewrite H0. unfold Clean.
    rewrite (elems_no_sep n Hs). cbn [fold_left].
    rewrite clean_step_plain by assumption.
    destruct n as [|c n]; [discriminate|]. cbn [is_rooted].
    simpl in Hs. apply andb_true_iff in Hs as [Hc _].
    apply negb_true_iff in Hc. rewrite Hc. reflexivity.
  - unfold Clean. change ("/" +:+ n) with (String "/" n).
    assert (Hr : is_rooted (dir +:+ String "/" n) = is_rooted dir)
      by (destruct dir; [contradiction|reflexivity]).
    rewrite Hr, elems_app_sep, (elems_no_sep n Hs), fold_left_app.
    cbn [fold_left]. rewrite clean_step_plain by assumption.
    cbn [rev]. set (st := rev (fold_left _ _ _)).
    rewrite join_sep_snoc.
    destruct (is_rooted dir); [now rewrite string_app_assoc|].
    destruct (st ++ [n]) eqn:E; [now destruct st|reflexivity].
Qed.


Lemma log_name_plain (t : Time) : valid_date t -> plain (Format t +:+ ".log").
Proof.
  intros Hv. rewrite (Format_valid t Hv).
  destruct Hv as (Hy & Hm & Hd).
  unfold plain. repeat split; try discriminate.
  cbv beta iota fix delta [String.append no_sep].
  rewrite !utod_not_sep; [reflexivity|..];
    try (split; [apply Z.div_pos|apply Z.div_lt_upper_bound]; lia);
    try (apply Z.mod_pos_bound; lia).
Qed.


Lemma logName_same_date (dir : string) (a b : Time) :
  same_date a b -> logName dir a = logName dir b.
Proof. intros H. unfold logName. now rewrite (Format_same_date a b H). Qed.
(** ** Rollover *)

Lemma steady_reading (w : World) (n k : nat) (now : Time) :
  steady w n now -> (k < n)%nat -> same_date (clock w (ticks w + k)) now.
Proof. rewrite steady_spec. auto. Qed.

Lemma not_differs_same (a b : Time) : same_date a b -> ~ differs a b.
Proof. intros (Hd & Hm & Hy) [H|[H|H]]; contradiction. Qed.



(** A write on another day than the one of the open file, when no call
    fails: one rotation, one file opened, the file of today. *)
Lemma Write_rollover (r : fileRotator) (p : list Byte.byte) (w : World)
  (h : nat) (o : File) (now : Time) :
  file r = Some h -> open_file h w = Some o -> no_faults w ->
  differs (date r) now -> steady w 4 now ->
  exists r' w' evs,
    Write r p w = ((Z.of_nat (length p), None), r', w') /\
    trace w' = trace w ++ evs /\
    rotations evs = 1%nat /\ opens evs = 1%nat /\
    path r' = path r /\ same_date (date r') now /\
    file r' = Some (length (fds w)) /\
    open_file (length (fds w)) w' = Some (mkFile (logName (path r) now) true) /\
    dom (files w') = dom (files w) ∪ {[ logName (path r) now ]}.
Proof.
  intros Hf Ho Hnf Hdiff Hs.
  pose proof (needRotate_steady r w now (steady_le w 4 3 now ltac:(lia) Hs)) as Hn.
  pose proof (needRotate_frame r w) as (Htr & Hfd & Hfi & _ & Hfa & Hcl & _ & Hti).
  cbn zeta in *.
  destruct (Write_cases r p w h Hf)
    as [(Hneed & _)
       |[(_ & e0 & [[Hc _]|[_ Hc]] & _)
        |[(_ & e0 & o' & _ & _ & Hc & _)
         |[(_ & o' & e0 & r' & w' & Ho' & _ & _ & Hon & _)
          |(_ & o' & r' & w2 & res & w' & Ho' & _ & _ & Hon & Hw & ->)]]]].
  - apply Hn in Hdiff. congruence.
  - congruence.
  - rewrite Hnf in Hc. discriminate.
  - rewrite Hnf in Hc. discriminate.
  - apply openNew_spec in Hon.
    destruct Hon as (_ & _ & _ & _ & _ & _ & _ & _ & [[_ Hc]|[_ Hc]] & _);
      cbn [faults closed_world] in Hc; rewrite Hfa, Hnf in Hc; discriminate.
  - assert (Ho'' : o' = o) by congruence. subst o'.
    set (d := clock w (ticks (snd (needRotate r w)))) in *.
    assert (Hd : same_date d now).
    { unfold d.
      replace (ticks (snd (needRotate r w)))
        with (ticks w + (ticks (snd (needRotate r w)) - ticks w))%nat by lia.
      eapply steady_reading; [exact Hs|]. lia. }
    rewrite <- (logName_same_date (path r) d now Hd).
    apply openNew_spec in Hon.
    destruct Hon as (pre & last & Ht & Hpre & _ & _ & Hfa2 & _ & Hl & -> & _ & Hfd2 & Hfi2).
    cbn [file closed_world fds files trace faults] in *.
    rewrite length_insert, Hfd in *.
    apply file_Write_spec in Hw.
    destruct Hw as (Ht' & Hfd' & _ & _ & _ & _ & _ & Hres).
    assert (Hopen : open_file (length (fds w)) w2
                    = Some (mkFile (logName (path r) d) true)).
    { unfold open_file. rewrite Hfd2, lookup_app_r by (rewrite length_insert; lia).
      rewrite length_insert, Nat.sub_diag. reflexivity. }
    destruct (snd res) as [e1|] eqn:Hres2.
    + exfalso. destruct Hres as (_ & _ & [[Hc _]|[_ Hc]]).
      * rewrite Hopen in Hc. discriminate.
      * rewrite Hfa2 in Hc. cbn [faults] in Hc. rewrite Hfa, Hnf in Hc.
        discriminate.
    + destruct Hres as (o2 & Ho2 & Hn2 & Hfi').
      rewrite Hopen in Ho2. injection Ho2 as <-. cbn [fname] in Hfi'.
      exists (mkRotator (path r) (Some (length (fds w))) d (compress r)), w'.
      eexists. destruct res as [n e']; cbn [fst snd] in *. subst n e'.
      split; [reflexivity|].
      split; [rewrite Ht', Ht, Htr, <- !app_assoc; reflexivity|].
      rewrite !rotations_app, !opens_app, (rotations_probes pre Hpre),
        (opens_probes pre Hpre), Hl.
      cbn [path date file].
      split; [destruct (compress r); reflexivity|].
      split; [destruct (compress r); reflexivity|].
      split; [reflexivity|]. split; [exact Hd|]. split; [reflexivity|].
      split.
      * unfold open_file in Hopen |- *. rewrite Hfd'. exact Hopen.
      * rewrite Hfi', dom_alter_L, Hfi2, Hfi.
        destruct (files w !! logName (path r) d) eqn:E.
        -- apply (elem_of_dom_2 (D := gset string)) in E.
           rewrite union_comm_L. symmetry.
           apply subseteq_union_1_L, singleton_subseteq_l, E.
        -- rewrite dom_insert_L. apply union_comm_L.
Qed.
(** ** [Close] *)

Lemma closed_handle_not_open (h : nat) (w : World) :
  closed_handle h w -> open_file h w = None.
Proof. intros (f & Hl & Hc). unfold open_file. now rewrite Hl, Hc. Qed.

Lemma Close_nil (r : fileRotator) (w : World) :
  file r = None -> Close r w = (None, r, w).
Proof. intros Hf. unfold Close. now rewrite Hf. Qed.

(** A successful [Close] closes the file behind the handle and leaves the
    handle in the sink. *)
Lemma Close_success (r r' : fileRotator) (w w' : World) (h : nat) :
  file r = Some h -> Close r w = (None, r', w') ->
  r' = r /\ closed_handle h w' /\ files w' = files w /\
  exists o, open_file h w = Some o /\
    trace w' = trace w ++ [Call (OpSync h) None; Call (OpClose h) None].
Proof.
  intros Hf. unfold Close, file_Sync, file_Close. rewrite Hf.
  destruct (open_file h w) as [o|] eqn:Ho; [|discriminate].
  destruct (faults w (OpSync h)); [discriminate|].
  assert (Ho' : open_file h (emit (Call (OpSync h) None) w) = Some o) by exact Ho.
  rewrite Ho'. cbn [faults emit].
  destruct (faults w (OpClose h)); [discriminate|].
  intros H; inversion H; subst. cbn.
  split; [reflexivity|]. split; [|split; [reflexivity|]].
  - exists (mkFile (fname o) false). split; [|reflexivity].
    apply list_lookup_insert_eq. unfold open_file in Ho.
    destruct (fds w !! h) eqn:E; [|discriminate].
    eapply lookup_lt_Some; eauto.
  - exists o. split; [reflexivity|]. now rewrite <- app_assoc.
Qed.

(** [Close] on a sink whose handle is closed. *)
Lemma Close_closed (r : fileRotator) (w : World) (h : nat) :
  file r = Some h -> closed_handle h w ->
  Close r w = (Some ErrClosed, r, emit (Call (OpSync h) (Some ErrClosed)) w).
Proof.
  intros Hf Hc. apply closed_handle_not_open in Hc.
  unfold Close, file_Sync. now rewrite Hf, Hc.
Qed.

(** [Write] on a sink whose handle is closed: whatever the date, the call
    fails on the closed file, and no file is opened. *)
Lemma Write_closed (r : fileRotator) (p : list Byte.byte) (w : World) (h : nat) :
  file r = Some h -> closed_handle h w ->
  exists ev w',
    Write r p w = ((0, Some ErrClosed), r, w') /\
    trace w' = trace w ++ [ev] /\ is_open_call ev = false /\
    files w' = files w /\ fds w' = fds w.
Proof.
  intros Hf Hc. apply closed_handle_not_open in Hc.
  pose proof (needRotate_frame r w) as (Htr & Hfd & Hfi & _). cbn zeta in *.
  destruct (Write_cases r p w h Hf)
    as [(_ & res & w' & Hw & ->)
       |[(_ & e0 & [[_ ->]|[[o Ho] _]] & ->)
        |[(_ & e0 & o & Ho & _)
         |[(_ & o & e0 & r' & w' & Ho & _)
          |(_ & o & r' & w2 & res & w' & Ho & _)]]]];
    try congruence.
  - apply file_Write_spec in Hw.
    destruct Hw as (Ht & Hfd' & _ & _ & _ & _ & _ & Hres).
    assert (Ho1 : open_file h (snd (needRotate r w)) = None)
      by (unfold open_file in *; now rewrite Hfd).
    destruct res as [n [e|]]; cbn [fst snd] in *.
    + destruct Hres as (-> & Hfi' & [[_ ->]|[[o Ho] _]]); [|congruence].
      eexists _, w'. split; [reflexivity|].
      rewrite Ht, Htr, Hfi', Hfi, Hfd', Hfd. auto.
    + destruct Hres as (o & Ho & _). congruence.
  - eexists _, _. split; [reflexivity|]. cbn [trace emit files fds].
    rewrite Htr, Hfi, Hfd. auto.
Qed.
(** ** The worker and the file objects of others *)

Lemma keeps_eq (n : nat) (w w' : World) : fds w' = fds w -> keeps n w w'.
Proof. intros H. unfold keeps. rewrite H. auto. Qed.

Lemma keeps_trans (n : nat) (w1 w2 w3 : World) :
  keeps n w1 w2 -> keeps n w2 w3 -> keeps n w1 w3.
Proof.
  intros [Hl1 H1] [Hl2 H2]. split; [lia|].
  intros h Hh. now rewrite H2, H1.
Qed.

Lemma keeps_new (n : nat) (w w' : World) (f : File) :
  (n <= length (fds w))%nat -> fds w' = fds w ++ [f] -> keeps n w w'.
Proof.
  intros Hn H. unfold keeps. rewrite H, length_app. split; [lia|].
  intros h Hh. apply lookup_app_l. lia.
Qed.

Lemma file_Close_keeps (n k : nat) (w : World) :
  (n <= k)%nat -> keeps n w (snd (file_Close (Some k) w)).
Proof.
  intros Hk. unfold file_Close.
  destruct (open_file k w); cbn [snd]; [|now apply keeps_eq].
  unfold keeps. cbn [fds emit set_fds]. rewrite length_insert. split; [lia|].
  intros h Hh. apply list_lookup_insert_ne. lia.
Qed.

Lemma os_Open_fds (src : string) (w : World) :
  match fst (os_Open src w) with
  | Ok h => h = length (fds w) /\
            fds (snd (os_Open src w)) = fds w ++ [mkFile src true] /\
            files (snd (os_Open src w)) = files w /\
            faults (snd (os_Open src w)) = faults w /\
            faults w (OpOpen src) = None
  | Err _ => snd (os_Open src w) = emit (Call (OpOpen src)
               (Some (match faults w (OpOpen src) with
                      | Some e => e | None => ErrNotExist end))) w
  end.
Proof.
  unfold os_Open.
  destruct (faults w (OpOpen src)) eqn:E; [reflexivity|].
  destruct (files w !! src); cbn; auto.
Qed.

Lemma os_Create_fds (name : string) (w : World) :
  match fst (os_Create name w) with
  | Ok h => h = length (fds w) /\
            fds (snd (os_Create name w)) = fds w ++ [mkFile name true] /\
            files (snd (os_Create name w)) = <[name := Plain []]> (files w) /\
            faults (snd (os_Create name w)) = faults w /\
            faults w (OpCreate name) = None
  | Err _ => fds (snd (os_Create name w)) = fds w /\
             files (snd (os_Create name w)) = files w
  end.
Proof.
  unfold os_Create. destruct (faults w (OpCreate name)) eqn:E; cbn; auto.
Qed.

Lemma os_Remove_fds (name : string) (w : World) :
  fds (snd (os_Remove name w)) = fds w.
Proof.
  unfold os_Remove. cbn [snd].
  destruct (faults w (OpRemove name)); [reflexivity|].
  destruct (files w !! name); reflexivity.
Qed.

(** The handles the worker closes are its own. *)
Lemma deferred_keeps (n a b : nat) (zw : list ZipEntry) (w : World) :
  (n <= a)%nat -> (n <= b)%nat ->
  keeps n w
    (snd (file_Close (Some a)
       (snd (file_Close (Some b) (snd (zip_Close b zw w)))))).
Proof.
  intros Ha Hb.
  eapply keeps_trans; [|apply file_Close_keeps; assumption].
  eapply keeps_trans; [|apply file_Close_keeps; assumption].
  apply keeps_eq. reflexivity.
Qed.

(** [compressFile] creates file objects of its own and leaves those that
    exist as they are. *)
Lemma compressFile_keeps (src : string) (w : World) :
  keeps (length (fds w)) w (compressFile src w).
Proof.
  unfold compressFile.
  pose proof (os_Open_fds src w) as H1.
  destruct (os_Open src w) as [[file|e] w1]; cbn [fst snd] in H1.
  2:{ subst w1. now apply keeps_eq. }
  destruct H1 as (-> & Hfd1 & _).
  assert (K1 : keeps (length (fds w)) w w1) by (eapply keeps_new; eauto).
  pose proof (os_Create_fds (src +:+ ".zip") w1) as H2.
  destruct (os_Create (src +:+ ".zip") w1) as [[zipFile|e] w2];
    cbn [fst snd] in H2.
  2:{ eapply keeps_trans; [exact K1|].
      eapply keeps_trans; [apply keeps_eq, (proj1 H2)|].
      apply file_Close_keeps. lia. }
  destruct H2 as (-> & Hfd2 & _).
  assert (K2 : keeps (length (fds w)) w w2).
  { eapply keeps_trans; [exact K1|]. eapply keeps_new; [|exact Hfd2].
    destruct K1. lia. }
  assert (Hz : (length (fds w) <= length (fds w1))%nat) by (destruct K1; lia).
  assert (D : forall zw w3, keeps (length (fds w)) w w3 ->
            keeps (length (fds w)) w
              (snd (file_Close (Some (length (fds w)))
                 (snd (file_Close (Some (length (fds w1)))
                    (snd (zip_Close (length (fds w1)) zw w3))))))).
  { intros zw w3 H3. eapply keeps_trans; [exact H3|].
    apply deferred_keeps; lia. }
  unfold file_Stat, zip_FileInfoHeader, zip_CreateHeader, io_Copy.
  repeat match goal with
         | |- context [match ?x with _ => _ end] =>
             lazymatch x with
             | open_file _ _ => destruct x
             | faults _ _ => destruct x
             end
         end;
    cbn [fst snd]; apply D;
    try (eapply keeps_trans; [exact K2|]; apply keeps_eq; reflexivity).
  all: eapply keeps_trans; [|apply keeps_eq, os_Remove_fds].
  all: eapply keeps_trans; [|apply file_Close_keeps; lia].
  all: eapply keeps_trans; [exact K2|]; apply keeps_eq; reflexivity.
Qed.

Lemma compressFile_closed_handle (src : string) (w : World) (h : nat) :
  closed_handle h w -> closed_handle h (compressFile src w).
Proof.
  intros (f & Hl & Hc). exists f. split; [|assumption].
  destruct (compressFile_keeps src w) as [_ Hk].
  rewrite Hk; [assumption|]. eapply lookup_lt_Some; eauto.
Qed.

Lemma run_goroutine_keeps (i : nat) (w : World) :
  keeps (length (fds w)) w (run_goroutine i w).
Proof.
  unfold run_goroutine. destruct (goroutines w !! i); [|now apply keeps_eq].
  apply (compressFile_keeps _ (set_goroutines _ w)).
Qed.
(** ** A sink whose handle is closed *)

(** Nothing that happens to a sink that holds a closed handle gives it
    another one: the handle stays where it is, and stays closed. *)
Lemma act_closed (a : Action) (r : fileRotator) (w : World) (h : nat) :
  file r = Some h -> closed_handle h w ->
  fst (act (r, w) a) = r /\ closed_handle h (snd (act (r, w) a)).
Proof.
  intros Hf Hc. destruct a as [p| |f|d f|i]; cbn [act fst snd].
  - destruct (Write_closed r p w h Hf Hc) as (ev & w' & -> & _ & _ & _ & Hfd).
    cbn [fst snd]. split; [reflexivity|].
    unfold closed_handle. now rewrite Hfd.
  - rewrite (Close_closed r w h Hf Hc). cbn [fst snd]. auto.
  - auto.
  - auto.
  - split; [reflexivity|].
    destruct Hc as (f & Hl & Hc). exists f. split; [|assumption].
    destruct (run_goroutine_keeps i w) as [_ Hk].
    rewrite Hk; [assumption|]. eapply lookup_lt_Some; eauto.
Qed.

Lemma run_closed (l : list Action) (r : fileRotator) (w : World) (h : nat) :
  file r = Some h -> closed_handle h w ->
  fst (run l (r, w)) = r /\ closed_handle h (snd (run l (r, w))).
Proof.
  intros Hf. revert w. induction l as [|a l IH]; intros w Hc; [now split|].
  cbn [run fold_left].
  destruct (act_closed a r w h Hf Hc) as [Hr Hc'].
  destruct (act (r, w) a) as [r' w']. cbn [fst snd] in *. subst r'.
  apply IH, Hc'.
Qed.

(** C3, as the code has it.  [Close] on a sink that holds no handle
    returns no error and changes nothing.  A successful [Close] closes the
    file and leaves the closed handle in the sink; from then on, whatever
    happens, the sink holds that closed handle: a further [Close] returns
    the error of the closed file, and a [Write] returns it too, with no
    byte written and no attempt to open a file. *)
Theorem Close_leaves_the_closed_handle :
  (forall (r : fileRotator) (w : World),
     file r = None -> Close r w = (None, r, w)) /\
  (forall (r : fileRotator) (w : World) (h : nat),
     file r = Some h -> fst (fst (Close r w)) = None ->
     let r' := snd (fst (Close r w)) in
     let w' := snd (Close r w) in
     r' = r /\ closed_handle h w' /\
     forall (l : list Action) (p : list Byte.byte),
       let s := run l (r', w') in
       file (fst s) = Some h /\ closed_handle h (snd s) /\
       fst (fst (Close (fst s) (snd s))) = Some ErrClosed /\
       fst (fst (Write (fst s) p (snd s))) = (0, Some ErrClosed) /\
       opens (new_events (snd s) (snd (Write (fst s) p (snd s)))) = 0%nat /\
       files (snd (Write (fst s) p (snd s))) = files (snd s)).
Proof.
  split; [exact Close_nil|].
  intros r w h Hf Hok.
  destruct (Close r w) as [[e r'] w'] eqn:HC. cbn [fst snd] in *. subst e.
  destruct (Close_success r r' w w' h Hf HC) as (-> & Hc & _).
  split; [reflexivity|]. split; [assumption|].
  intros l p. cbn zeta.
  destruct (run_closed l r w' h Hf Hc) as [Hr Hc'].
  destruct (run l (r, w')) as [r2 w2]. cbn [fst snd] in *. subst r2.
  split; [assumption|]. split; [assumption|].
  rewrite (Close_closed r w2 h Hf Hc').
  destruct (Write_closed r p w2 h Hf Hc') as (ev & w3 & -> & Ht & Hev & Hfi & _).
  cbn [fst snd]. rewrite (new_events_app _ _ _ Ht).
  unfold opens. cbn. rewrite Hev. auto.
Qed.

(** C3 fails as stated: the sink that was closed once still holds its
    handle, its second [Close] returns an error, and a [Write] fails
    without opening a file. *)
Lemma Close_twice_counterexample :
  fst (fst closed_once) = None /\
  file (snd (fst closed_once)) = Some 0%nat /\
  fst (fst (Close (snd (fst closed_once)) (snd closed_once))) = Some ErrClosed /\
  fst (fst (Write (snd (fst closed_once)) hello (snd closed_once)))
    = (0, Some ErrClosed) /\
  opens (trace (snd (Write (snd (fst closed_once)) hello (snd closed_once))))
    = 0%nat.
Proof. vm_compute. repeat split; reflexivity. Qed.

Lemma Close_leaves_the_closed_handle_witness :
  file (fst (run [DoWrite hello; EnvRun 0; DoClose]
               (snd (fst closed_once), snd closed_once))) = Some 0%nat /\
  fst (fst (Write (snd (fst closed_once)) hello (snd closed_once)))
    = (0, Some ErrClosed).
Proof.
  destruct (proj2 Close_leaves_the_closed_handle sink_open
              (world_open march5 quiet) 0%nat eq_refl eq_refl)
    as (_ & _ & H).
  split.
  - exact (proj1 (H [DoWrite hello; EnvRun 0%nat; DoClose] hello)).
  - exact (proj1 (proj2 (proj2 (proj2 (H [] hello))))).
Defined.
(** ** A rotation that cannot open the new file *)

Lemma open_failed_app (a b : list Event) :
  open_failed (a ++ b) = open_failed a || open_failed b.
Proof. apply existsb_app. Qed.

Lemma open_failed_probes (evs : list Event) :
  forallb is_probe evs = true -> open_failed evs = false.
Proof.
  unfold open_failed. induction evs as [|e evs IH]; simpl; [reflexivity|].
  rewrite andb_true_iff. intros [He Hevs]. rewrite (IH Hevs), orb_false_r.
  destruct e as [[] [|]|]; simpl in *; try discriminate; reflexivity.
Qed.

(** A call of [Write] on a sink that holds a handle, in which the
    directory cannot be created or the file cannot be opened: the old file
    was flushed and closed before, the call returns the error of the failed
    attempt and zero, no file has changed, and the sink is what it was but
    for its date, which is the one read for the new file. *)
Lemma Write_some_open_failure (r : fileRotator) (p : list Byte.byte) (w : World)
  (h : nat) :
  file r = Some h ->
  open_failed (new_events w (snd (Write r p w))) = true ->
  exists o e k w' pre ev,
    open_file h w = Some o /\ (1 <= k <= 3)%nat /\
    Write r p w = ((0, Some e), set_date r (clock w (ticks w + k)), w') /\
    files w' = files w /\
    fds w' = <[h := mkFile (fname o) false]> (fds w) /\
    closed_handle h w' /\
    trace w' = trace w ++ [Call (OpSync h) None; Call (OpClose h) None]
                 ++ (if compress r then [Go (fname o)] else [])
                 ++ pre ++ [ev] /\
    forallb is_probe pre = true /\
    is_open_failure ev = true /\ event_error ev = Some e.
Proof.
  intros Hf.
  pose proof (needRotate_frame r w) as (Htr & Hfd & Hfi & _ & _ & Hcl & _ & Hti).
  cbn zeta in *.
  destruct (Write_cases r p w h Hf)
    as [(_ & res & w' & Hw & ->)
       |[(_ & e0 & _ & ->)
        |[(_ & e0 & o & _ & _ & _ & ->)
         |[(_ & o & e0 & r' & w' & Ho & _ & _ & Hon & ->)
          |(_ & o & r' & w2 & res & w' & Ho & _ & _ & Hon & Hw & ->)]]]];
    cbn [snd].
  - apply file_Write_spec in Hw. destruct Hw as (Ht & _).
    erewrite new_events_app by (rewrite Ht, Htr; reflexivity). discriminate.
  - erewrite new_events_app by (cbn [trace emit]; rewrite Htr; reflexivity).
    discriminate.
  - erewrite new_events_app
      by (cbn [trace emit set_fds]; rewrite Htr, <- app_assoc; reflexivity).
    discriminate.
  - intros _. apply openNew_spec in Hon.
    destruct Hon as (pre & last & Ht & Hpre & _ & _ & _ & _ & Hl & -> & Hfd2 & Hfi2).
    cbn [closed_world trace fds files] in *.
    exists o, e0, (ticks (snd (needRotate r w)) - ticks w)%nat, w', pre, last.
    split; [assumption|]. split; [lia|].
    replace (ticks w + (ticks (snd (needRotate r w)) - ticks w))%nat
      with (ticks (snd (needRotate r w))) by lia.
    split; [reflexivity|].
    rewrite Hfi2, Hfi, Hfd2, Hfd, Ht, Htr, <- !app_assoc.
    split; [reflexivity|]. split; [reflexivity|].
    split.
    { exists (mkFile (fname o) false). rewrite Hfd2, Hfd.
      split; [|reflexivity]. apply list_lookup_insert_eq.
      unfold open_file in Ho. destruct (fds w !! h) eqn:E; [|discriminate].
      eapply lookup_lt_Some; eauto. }
    split; [reflexivity|]. split; [assumption|].
    destruct Hl as [[-> _]|[-> _]]; split; reflexivity.
  - apply openNew_spec in Hon.
    destruct Hon as (pre & last & Ht & Hpre & _ & _ & _ & _ & Hl & -> & _).
    cbn [file] in Hw. apply file_Write_spec in Hw. destruct Hw as (Ht' & _).
    cbn [closed_world trace] in Ht.
    erewrite new_events_app
      by (rewrite Ht', Ht, Htr, <- !app_assoc; reflexivity).
    rewrite !open_failed_app, (open_failed_probes pre Hpre), Hl.
    destruct (compress r); discriminate.
Qed.
(** C4, as the code has it.  When a rotation closes the old file and the
    new file cannot be opened (or its directory cannot be created), the
    call returns an error and zero and no file has changed; the sink keeps
    the handle of the file that was closed, and from then on, whatever
    happens, every [Write] fails on that closed file, with no byte written
    and no attempt to open a file. *)
Theorem failed_rotation_leaves_the_closed_handle
  (r : fileRotator) (p : list Byte.byte) (w : World) (h : nat) :
  file r = Some h ->
  open_failed (new_events w (snd (Write r p w))) = true ->
  let r' := snd (fst (Write r p w)) in
  let w' := snd (Write r p w) in
  (exists e, fst (fst (Write r p w)) = (0, Some e)) /\
  files w' = files w /\
  In (Call (OpClose h) None) (new_events w w') /\
  file r' = Some h /\ closed_handle h w' /\
  forall (l : list Action) (q : list Byte.byte),
    let s := run l (r', w') in
    file (fst s) = Some h /\ closed_handle h (snd s) /\
    fst (fst (Write (fst s) q (snd s))) = (0, Some ErrClosed) /\
    opens (new_events (snd s) (snd (Write (fst s) q (snd s)))) = 0%nat /\
    files (snd (Write (fst s) q (snd s))) = files (snd s).
Proof.
  intros Hf Hfail.
  destruct (Write_some_open_failure r p w h Hf Hfail)
    as (o & e & k & w' & pre & ev & Ho & Hk & -> & Hfi & Hfd & Hc & Ht & _).
  cbn [fst snd]. rewrite (new_events_app _ _ _ Ht).
  split; [eauto|]. split; [assumption|].
  split; [right; left; reflexivity|].
  split; [assumption|]. split; [assumption|].
  intros l q. cbn zeta.
  assert (Hf' : file (set_date r (clock w (ticks w + k))) = Some h) by exact Hf.
  destruct (run_closed l _ w' h Hf' Hc) as [Hr Hc'].
  destruct (run l (set_date r (clock w (ticks w + k)), w')) as [r2 w2].
  cbn [fst snd] in *. subst r2.
  split; [assumption|]. split; [assumption|].
  destruct (Write_closed _ q w2 h Hf' Hc') as (ev' & w3 & -> & Ht' & Hev & Hfi' & _).
  cbn [fst snd]. rewrite (new_events_app _ _ _ Ht').
  unfold opens. cbn. rewrite Hev. auto.
Qed.

(** C4 fails as stated: after the rotation that could not open the file
    of March 6, the next [Write], with nothing in its way any more, does
    not try to open a file and fails on the closed one. *)
Lemma failed_rotation_counterexample :
  fst (fst refused_rotation) = (0, Some ErrPermission) /\
  In (Call (OpClose 0) None) (trace (snd refused_rotation)) /\
  fst (fst (Write (snd (fst refused_rotation)) hello
              (set_faults quiet (snd refused_rotation))))
    = (0, Some ErrClosed) /\
  opens (new_events (snd refused_rotation)
           (snd (Write (snd (fst refused_rotation)) hello
                   (set_faults quiet (snd refused_rotation))))) = 0%nat.
Proof. vm_compute. repeat split; try reflexivity. right; left; reflexivity. Qed.

Lemma failed_rotation_leaves_the_closed_handle_witness :
  file (snd (fst refused_rotation)) = Some 0%nat /\
  fst (fst (Write (fst (run [EnvFaults quiet] (snd (fst refused_rotation), snd refused_rotation)))
              hello
              (snd (run [EnvFaults quiet] (snd (fst refused_rotation), snd refused_rotation)))))
    = (0, Some ErrClosed).
Proof.
  destruct (failed_rotation_leaves_the_closed_handle sink_open hello
              (world_open march6 (deny_open (logName logs march6))) 0%nat
              eq_refl eq_refl)
    as (_ & _ & _ & Hf & _ & H).
  split; [exact Hf|].
  exact (proj1 (proj2 (proj2 (H [EnvFaults quiet] hello)))).
Defined.

(** ** A call that cannot open its file *)

(** C7, as the code has it.  When the directory cannot be created or the
    file cannot be opened during a call of [Write], the call returns the
    error and zero, and no byte is written: the files that existed are
    what they were.  The sink keeps its directory and its flag and is left
    without an open file; its date is not the one it had, it is the one
    the failed attempt read from the clock.  Unless the call had opened a
    first file and rotated away from it at once, the sink also keeps the
    handle it had (none, or the one that was closed) and no file was
    created. *)
Theorem Write_open_failure (r : fileRotator) (p : list Byte.byte) (w : World) :
  open_failed (new_events w (snd (Write r p w))) = true ->
  let r' := snd (fst (Write r p w)) in
  let w' := snd (Write r p w) in
  (exists e, fst (fst (Write r p w)) = (0, Some e)) /\
  path r' = path r /\ compress r' = compress r /\
  (exists k, (k <= 4)%nat /\ date r' = clock w (ticks w + k)) /\
  (forall h, file r' = Some h -> closed_handle h w') /\
  (forall n c, files w !! n = Some c -> files w' !! n = Some c) /\
  (file r <> None \/ rotations (new_events w w') = 0%nat ->
   file r' = file r /\ files w' = files w).
Proof.
  destruct (file r) as [h|] eqn:Hf.
  - intros Hfail.
    destruct (Write_some_open_failure r p w h Hf Hfail)
      as (o & e & k & w' & pre & ev & Ho & Hk & -> & Hfi & Hfd & Hc & Ht & _).
    cbn [fst snd set_date path compress date file].
    split; [eauto|]. split; [reflexivity|]. split; [reflexivity|].
    split; [exists k; split; [lia|reflexivity]|].
    split; [intros h' Hh'; rewrite Hf in Hh'; now injection Hh' as <-|].
    split; [now rewrite Hfi|]. auto.
  - destruct (Write_none r p w Hf)
      as [(e0 & r' & w' & Hon & ->)|(r1 & w1 & Hon & ->)];
      apply openNew_spec in Hon;
      destruct Hon as (pre & last & Ht & Hpre & Hti & Hcl & _ & _ & Hcase);
      cbn [time_Now snd trace fds files ticks clock] in *.
    + intros _. destruct Hcase as (_ & -> & _ & Hfi).
      cbn [fst snd set_date path compress date file].
      split; [eauto|]. split; [reflexivity|]. split; [reflexivity|].
      split; [exists 0%nat; split; [lia|now rewrite Nat.add_0_r]|].
      split; [now rewrite Hf|]. split; [now rewrite Hfi|]. auto.
    + destruct Hcase as (Hl & Hr1 & _ & Hfd & Hfi).
      assert (Hf1 : file r1 = Some (length (fds w))) by now subst r1.
      destruct (Write_events r1 p w1) as (evs & Ht1 & _).
      assert (Hev : new_events w (snd (Write r1 p w1)) = (pre ++ [last]) ++ evs)
        by (apply new_events_app; rewrite Ht1, Ht, <- !app_assoc; reflexivity).
      rewrite Hev, open_failed_app, open_failed_app,
        (open_failed_probes pre Hpre), Hl.
      cbn [orb open_failed existsb is_open_failure].
      rewrite <- (new_events_app _ _ _ Ht1). intros Hfail.
      destruct (Write_some_open_failure r1 p w1 _ Hf1 Hfail)
        as (o & e & k & w' & pre' & ev & Ho & Hk & HW & Hfi' & Hfd' & Hc & Ht' & _).
      rewrite HW in *. cbn [fst snd] in *.
      rewrite Hr1. cbn [set_date path compress date file].
      split; [eauto|]. split; [reflexivity|]. split; [reflexivity|].
      split.
      { exists (S k). split; [lia|]. rewrite Hcl, Hti. f_equal. lia. }
      split; [intros h' Hh'; now injection Hh' as <-|].
      split.
      { intros n c Hn. rewrite Hfi', Hfi.
        destruct (files w !! logName (path r) (clock w (ticks w))) eqn:E;
          [assumption|].
        rewrite lookup_insert_ne; [assumption|]. congruence. }
      intros [Hc0|Hc0]; [contradiction|]. exfalso.
      rewrite (new_events_app _ _ _ Ht') in Hc0.
      cbn [app] in Hc0. rewrite rotations_app in Hc0.
      unfold rotations in Hc0 at 2.
      cbn [List.filter is_sync length] in Hc0. lia.
Qed.

(** C7 fails as stated: the sink that could not open its first file has
    the date of the failed attempt, not the one it had. *)
Lemma Write_open_failure_counterexample :
  open_failed (trace (snd refused_first_open)) = true /\
  fst (fst refused_first_open) = (0, Some ErrPermission) /\
  date sink_new = zeroTime /\
  date (snd (fst refused_first_open)) = march5 /\
  date (snd (fst refused_first_open)) <> date sink_new.
Proof. vm_compute. repeat split; try reflexivity. discriminate. Qed.

Lemma Write_open_failure_witness :
  date (snd (fst refused_first_open)) = march5 /\
  file (snd (fst refused_first_open)) = None.
Proof.
  destruct (Write_open_failure sink_new hello
              (world_new march5 (deny_open (logName logs march5))) eq_refl)
    as (_ & _ & _ & (k & _ & Hd) & _ & _ & H).
  split; [exact Hd|].
  exact (proj1 (H (or_intror eq_refl))).
Defined.
(** ** The order of a rotation *)

(** C5. In a call of [Write] that rotates away from an open file, the
    flush and the close of the old handle come first, one after the other,
    and nothing follows a flush or a close that failed.  Once the old file
    is closed, and only when [compress] is set, the compression task is
    started, for the name of the file that was just closed; then the
    directory is probed and the new file is opened, and the bytes are
    written after that, to the new handle.  The call returns with the task
    still waiting to run: it never waits for it. *)
Theorem rotation_closes_before_it_opens (r : fileRotator) (p : list Byte.byte)
  (w : World) (h : nat) (o : File) :
  file r = Some h -> open_file h w = Some o ->
  rotations (new_events w (snd (Write r p w))) = 1%nat ->
  let w' := snd (Write r p w) in
  let evs := new_events w w' in
  (exists e, evs = [Call (OpSync h) (Some e)] /\
     goroutines w' = goroutines w) \/
  (exists e, evs = [Call (OpSync h) None; Call (OpClose h) (Some e)] /\
     goroutines w' = goroutines w) \/
  (exists pre ev rest,
     evs = [Call (OpSync h) None; Call (OpClose h) None]
             ++ (if compress r then [Go (fname o)] else [])
             ++ pre ++ [ev] ++ rest /\
     forallb is_probe pre = true /\
     goroutines w' = goroutines w ++ (if compress r then [fname o] else []) /\
     (is_open_failure ev = true /\ rest = [] \/
      is_open_call ev = true /\ event_error ev = None /\
      exists res, rest = [Call (OpWrite (length (fds w)) p) res] /\
                  length (fds w) <> h)).
Proof.
  intros Hf Ho Hrot.
  destruct (Write_some_events r p w h Hf) as (evs0 & Ht0 & Hr0).
  rewrite (new_events_app _ _ _ Ht0), Hr0 in Hrot.
  pose proof (needRotate_frame r w) as (Htr & Hfd & _ & _ & _ & _ & Hgo & _).
  cbn zeta in *.
  destruct (Write_cases r p w h Hf)
    as [(Hneed & _)
       |[(_ & e0 & _ & HW)
        |[(_ & e0 & o' & _ & _ & _ & HW)
         |[(_ & o' & e0 & r' & w' & Ho' & _ & _ & Hon & HW)
          |(_ & o' & r' & w2 & res & w' & Ho' & _ & _ & Hon & Hw & HW)]]]];
    [rewrite Hneed in Hrot; discriminate|rewrite HW; cbn [snd]..].
  - left. exists e0. split; [|exact Hgo].
    apply new_events_app. cbn [trace emit]. now rewrite Htr.
  - right; left. exists e0. split; [|exact Hgo].
    apply new_events_app. cbn [trace emit set_fds]. now rewrite Htr, <- app_assoc.
  - right; right. assert (o' = o) by congruence. subst o'.
    apply openNew_spec in Hon.
    destruct Hon as (pre & last & Ht & Hpre & _ & _ & _ & Hgo' & Hl & _).
    cbn [closed_world trace goroutines] in *.
    exists pre, last, []. split; [|split; [assumption|split]].
    + apply new_events_app. rewrite Ht, Htr, <- !app_assoc. reflexivity.
    + now rewrite Hgo', Hgo.
    + left. split; [|reflexivity]. destruct Hl as [[-> _]|[-> _]]; reflexivity.
  - right; right. assert (o' = o) by congruence. subst o'.
    apply openNew_spec in Hon.
    destruct Hon as (pre & last & Ht & Hpre & _ & _ & _ & Hgo' & Hl & -> & _).
    cbn [closed_world trace goroutines file fds] in *.
    rewrite length_insert, Hfd in Hw.
    apply file_Write_spec in Hw.
    destruct Hw as (Ht' & _ & _ & _ & _ & _ & Hgo'' & _).
    exists pre, last, [Call (OpWrite (length (fds w)) p) (snd res)].
    split; [|split; [assumption|split]].
    + apply new_events_app. rewrite Ht', Ht, Htr, <- !app_assoc. reflexivity.
    + now rewrite Hgo'', Hgo', Hgo.
    + right. rewrite Hl. repeat split. eexists. split; [reflexivity|].
      unfold open_file in Ho. destruct (fds w !! h) eqn:E; [|discriminate].
      apply lookup_lt_Some in E. lia.
Qed.

Lemma rotation_closes_before_it_opens_witness :
  new_events (world_open march6 quiet)
    (snd (Write sink_open hello (world_open march6 quiet)))
  = [Call (OpSync 0) None; Call (OpClose 0) None; Go (logName logs march5);
     Call (OpStat logs) None; Call (OpOpenFile (logName logs march6)) None;
     Call (OpWrite 1 hello) None] /\
  goroutines (snd (Write sink_open hello (world_open march6 quiet)))
  = [logName logs march5].
Proof.
  destruct (rotation_closes_before_it_opens sink_open hello
              (world_open march6 quiet) 0%nat
              (mkFile (logName logs march5) true) eq_refl eq_refl eq_refl)
    as [(e & H & _)|[(e & H & _)|(pre & ev & rest & H & _ & Hg & _)]];
    try (vm_compute in H; discriminate).
  split; [vm_compute; reflexivity|exact Hg].
Defined.
(** ** The compression worker *)

Ltac wsimpl :=
  cbn [faults emit set_fds set_files set_dirs set_goroutines fds files dirs
       goroutines trace clock ticks fst snd new_file].

Lemma zip_name_fresh (src : string) : src <> src +:+ ".zip".
Proof.
  induction src as [|c s IH]; [discriminate|].
  intros H. injection H as H. contradiction.
Qed.

(** When no call fails before the archive is completed, the worker
    copies the source into an archive of one entry, named after the base
    name of the source, under the name of the source followed by [.zip],
    and removes the source; the archive is complete when the call that
    completes it, which comes last, succeeds. *)
Lemma compressFile_copied (src : string) (w : World) (data : list Byte.byte) :
  files w !! src = Some (Plain data) -> only_finalize_fails w ->
  files (compressFile src w) =
  <[src +:+ ".zip" :=
      Archive [mkZipEntry (Base src) (Z.of_nat (length data)) data]
        (match faults w (OpZipClose (S (length (fds w)))) with
         | None => true
         | Some _ => false
         end)]>
    (delete src (<[src +:+ ".zip" := Plain []]> (files w))).
Proof.
  intros Hsrc Hnf.
  pose proof (zip_name_fresh src) as Hne.
  assert (H0 : forall (a b : File),
            (fds w ++ [a; b]) !! length (fds w) = Some a).
  { intros a b. rewrite lookup_app_r by lia. now rewrite Nat.sub_diag. }
  assert (H1 : forall (a b : File),
            (fds w ++ [a; b]) !! S (length (fds w)) = Some b).
  { intros a b. rewrite lookup_app_r by lia.
    now replace (S (length (fds w)) - length (fds w))%nat with 1%nat by lia. }
  specialize (H0 (mkFile src true) (mkFile (src +:+ ".zip") true)).
  specialize (H1 (mkFile src true) (mkFile (src +:+ ".zip") true)).
  unfold compressFile, os_Open. rewrite Hnf, Hsrc by reflexivity. wsimpl.
  unfold os_Create. wsimpl. rewrite Hnf by reflexivity. wsimpl.
  rewrite length_app, Nat.add_1_r, <- app_assoc. cbn [length app].
  unfold file_Stat, open_file. wsimpl. rewrite H0. cbn [fopen fname].
  rewrite Hnf, lookup_insert_ne, Hsrc by (reflexivity || congruence).
  cbn [default raw]. wsimpl.
  unfold zip_FileInfoHeader. wsimpl. rewrite Hnf by reflexivity. wsimpl.
  unfold zip_CreateHeader. wsimpl. rewrite Hnf by reflexivity. wsimpl.
  unfold io_Copy, open_file. wsimpl. rewrite Hnf, H0 by reflexivity.
  cbn [fopen fname].
  rewrite lookup_insert_ne, Hsrc by congruence.
  cbn [default raw app fill_last rev zname zsize zdata]. wsimpl.
  unfold file_Close at 3. unfold open_file. wsimpl. rewrite H0.
  cbn [fopen fname]. wsimpl.
  unfold os_Remove. wsimpl.
  rewrite Hnf, lookup_insert_ne, Hsrc by (reflexivity || congruence).
  wsimpl.
  unfold zip_Close, file_Name. wsimpl.
  rewrite list_lookup_insert_ne, H1 by lia. cbn [fname]. wsimpl.
  unfold file_Close, open_file. wsimpl.
  repeat match goal with
         | |- context [match ?x with _ => _ end] => destruct x
         end; reflexivity.
Qed.

Lemma compressFile_success (src : string) (w : World) (data : list Byte.byte) :
  files w !! src = Some (Plain data) -> no_faults w ->
  files (compressFile src w) =
  <[src +:+ ".zip" :=
      Archive [mkZipEntry (Base src) (Z.of_nat (length data)) data] true]>
    (delete src (<[src +:+ ".zip" := Plain []]> (files w))).
Proof.
  intros Hsrc Hnf.
  rewrite (compressFile_copied src w data Hsrc) by (intros op _; apply Hnf).
  now rewrite Hnf.
Qed.

(** Whenever the call that completes the archive is the one that fails,
    the source is gone and the archive is incomplete: the source is
    removed before the archive is completed. *)
Lemma compressFile_removes_before_finalizing (src : string) (w : World)
  (data : list Byte.byte) (e : error) :
  files w !! src = Some (Plain data) -> only_finalize_fails w ->
  faults w (OpZipClose (S (length (fds w)))) = Some e ->
  files (compressFile src w) !! src = None /\
  files (compressFile src w) !! (src +:+ ".zip")
    = Some (Archive [mkZipEntry (Base src) (Z.of_nat (length data)) data] false).
Proof.
  intros Hsrc Hq He.
  rewrite (compressFile_copied src w data Hsrc Hq), He.
  split; [|apply lookup_insert_eq].
  rewrite lookup_insert_ne by (symmetry; apply zip_name_fresh).
  apply lookup_delete_eq.
Qed.

(** C6 fails on the code: the archive of the file of March 5 cannot be
    completed, since the disk is full when the writer is closed, and the
    worker has removed the source before. *)
Theorem compressFile_removes_source_of_incomplete_archive :
  files (world_rotated disk_full_at_close) !! logName logs march5
    = Some (Plain hello) /\
  In (Call (OpZipClose 2) (Some ErrNoSpace)) (trace interrupted_archive) /\
  files interrupted_archive !! logName logs march5 = None /\
  files interrupted_archive !! (logName logs march5 +:+ ".zip")
    = Some (Archive [mkZipEntry "2024_03_05.log" 5 hello] false).
Proof.
  vm_compute. repeat split; try reflexivity.
  do 8 right. left. reflexivity.
Qed.
(** ** What the worker leaves alone *)

Lemma file_Close_files (f : option nat) (w : World) :
  files (snd (file_Close f w)) = files w.
Proof.
  unfold file_Close. destruct f as [h|]; [|reflexivity].
  destruct (open_file h w); reflexivity.
Qed.

Lemma worker_frame_ext (b : bool) (src : string) (hz : nat) (w0 w w' : World) :
  fds w' = fds w -> files w' = files w ->
  worker_frame b src hz w0 w -> worker_frame b src hz w0 w'.
Proof. unfold worker_frame. intros -> ->. auto. Qed.

Lemma worker_frame_Close (b : bool) (src : string) (hz k : nat) (w0 w : World) :
  worker_frame b src hz w0 w ->
  worker_frame b src hz w0 (snd (file_Close (Some k) w)).
Proof.
  intros [(f & Hl & Hn) Hfi]. split.
  - unfold file_Close, open_file.
    destruct (fds w !! k) as [o|] eqn:E; [|eauto].
    destruct (fopen o); [|eauto]. cbn [snd fds emit set_fds].
    destruct (decide (k = hz)) as [->|Hne].
    + rewrite list_lookup_insert_eq by (eapply lookup_lt_Some; eauto).
      eexists. split; [reflexivity|]. cbn. congruence.
    + rewrite list_lookup_insert_ne by assumption. eauto.
  - intros name H1 H2. rewrite file_Close_files. auto.
Qed.

(** Once [os.Remove] was called, the source is no longer kept. *)
Lemma worker_frame_Remove (b : bool) (src : string) (hz : nat) (w0 w : World) :
  worker_frame b src hz w0 w ->
  worker_frame false src hz w0 (snd (os_Remove src w)).
Proof.
  intros [Hz Hfi]. split.
  - now rewrite os_Remove_fds.
  - intros name H1 H2. specialize (H1 eq_refl).
    assert (Hk : files w !! name = files w0 !! name) by (apply Hfi; auto).
    unfold os_Remove. cbn [snd].
    destruct (faults w (OpRemove src)); [exact Hk|].
    destruct (files w !! src); cbn [files emit set_files]; [|exact Hk].
    now rewrite lookup_delete_ne by congruence.
Qed.

Lemma worker_frame_zip_Close (b : bool) (src : string) (hz : nat)
  (zw : list ZipEntry) (w0 w : World) :
  worker_frame b src hz w0 w ->
  worker_frame b src hz w0 (snd (zip_Close hz zw w)).
Proof.
  intros [(f & Hl & Hn) Hfi]. split; [now exists f|].
  intros name H1 H2. unfold zip_Close, file_Name.
  cbn [snd files emit set_files]. rewrite Hl, Hn.
  rewrite lookup_insert_ne by congruence. now apply Hfi.
Qed.

(** The deferred calls of the worker. *)
Lemma worker_frame_deferred (b : bool) (src : string) (hz k : nat)
  (zw : list ZipEntry) (w0 w : World) (name : string) :
  worker_frame b src hz w0 w ->
  (b = false -> name <> src) -> name <> src +:+ ".zip" ->
  files (snd (file_Close (Some k)
           (snd (file_Close (Some hz) (snd (zip_Close hz zw w)))))) !! name
  = files w0 !! name.
Proof.
  intros H H1 H2.
  apply worker_frame_zip_Close with (zw := zw) in H.
  apply worker_frame_Close with (k := hz) in H.
  apply worker_frame_Close with (k := k) in H.
  now apply H.
Qed.

(** The worker touches two names, the source and the archive. *)
Lemma compressFile_frame (src : string) (w : World) (name : string) :
  name <> src -> name <> src +:+ ".zip" ->
  files (compressFile src w) !! name = files w !! name.
Proof.
  intros Hn1 Hn2. unfold compressFile.
  pose proof (os_Open_fds src w) as H1.
  destruct (os_Open src w) as [[file|e] w1]; cbn [fst snd] in H1.
  2:{ subst w1. reflexivity. }
  destruct H1 as (-> & Hfd1 & Hfi1 & _).
  pose proof (os_Create_fds (src +:+ ".zip") w1) as H2.
  destruct (os_Create (src +:+ ".zip") w1) as [[zipFile|e] w2];
    cbn [fst snd] in H2.
  2:{ rewrite file_Close_files. destruct H2 as [_ ->]. now rewrite Hfi1. }
  destruct H2 as (-> & Hfd2 & Hfi2 & _).
  assert (P : worker_frame true src (length (fds w1)) w w2).
  { split.
    - eexists. rewrite Hfd2, lookup_app_r, Nat.sub_diag by lia.
      split; reflexivity.
    - intros n Ha Hb. rewrite Hfi2, lookup_insert_ne, Hfi1 by congruence.
      reflexivity. }
  unfold file_Stat, zip_FileInfoHeader, zip_CreateHeader, io_Copy.
  repeat match goal with
         | |- context [match ?x with _ => _ end] =>
             lazymatch x with
             | open_file _ _ => destruct x
             | faults _ _ => destruct x
             end
         end;
    cbn [fst snd];
    first
      [ apply (worker_frame_deferred true src);
        [eapply worker_frame_ext; [| |exact P]; reflexivity
        |intros; assumption|assumption]
      | apply (worker_frame_deferred false src);
        [apply worker_frame_Remove with (b := true), worker_frame_Close;
         eapply worker_frame_ext; [| |exact P]; reflexivity
        |intros; assumption|assumption] ].
Qed.

(** The source is what it was whenever a call fails before the bytes are
    copied: the worker returns before [os.Remove]. *)
Lemma compressFile_keeps_source (src : string) (w : World) :
  faults w (OpOpen src) <> None \/
  faults w (OpCreate (src +:+ ".zip")) <> None \/
  faults w (OpFstat (length (fds w))) <> None \/
  faults w (OpFileInfoHeader (Base src)) <> None \/
  faults w (OpZipCreateHeader (S (length (fds w)))) <> None \/
  faults w (OpZipCopy (length (fds w))) <> None ->
  files (compressFile src w) !! src = files w !! src.
Proof.
  intros Hfail. pose proof (zip_name_fresh src) as Hne.
  unfold compressFile.
  pose proof (os_Open_fds src w) as H1.
  destruct (os_Open src w) as [[file|e] w1]; cbn [fst snd] in H1.
  2:{ subst w1. reflexivity. }
  destruct H1 as (-> & Hfd1 & Hfi1 & Hfa1 & Hok1).
  pose proof (os_Create_fds (src +:+ ".zip") w1) as H2.
  destruct (os_Create (src +:+ ".zip") w1) as [[zipFile|e] w2];
    cbn [fst snd] in H2.
  2:{ rewrite file_Close_files. destruct H2 as [_ ->]. now rewrite Hfi1. }
  destruct H2 as (-> & Hfd2 & Hfi2 & Hfa2 & Hok2).
  rewrite Hfa1 in Hok2, Hfa2.
  assert (Hlen : length (fds w1) = S (length (fds w)))
    by (rewrite Hfd1, length_app; cbn; lia).
  assert (P : worker_frame true src (length (fds w1)) w w2).
  { split.
    - eexists. rewrite Hfd2, lookup_app_r, Nat.sub_diag by lia.
      split; reflexivity.
    - intros n Ha Hb. rewrite Hfi2, lookup_insert_ne, Hfi1 by congruence.
      reflexivity. }
  assert (Hopen : open_file (length (fds w)) w2 = Some (mkFile src true)).
  { unfold open_file. rewrite Hfd2, Hfd1, <- app_assoc.
    rewrite lookup_app_r, Nat.sub_diag by lia. reflexivity. }
  unfold file_Stat, zip_FileInfoHeader, zip_CreateHeader, io_Copy.
  rewrite Hopen. cbn [fname fst snd faults emit]. rewrite !Hfa2, Hlen.
  rewrite Hlen in P.
  destruct (faults w (OpFstat (length (fds w)))) eqn:E3; cbn [fst snd faults emit];
    [apply (worker_frame_deferred true src);
     [eapply worker_frame_ext; [| |exact P]; reflexivity
     |discriminate|assumption]|].
  rewrite ?Hfa2.
  destruct (faults w (OpFileInfoHeader (Base src))) eqn:E4;
    cbn [fst snd faults emit];
    [apply (worker_frame_deferred true src);
     [eapply worker_frame_ext; [| |exact P]; reflexivity
     |discriminate|assumption]|].
  rewrite ?Hfa2.
  destruct (faults w (OpZipCreateHeader (S (length (fds w))))) eqn:E5;
    cbn [fst snd faults emit];
    [apply (worker_frame_deferred true src);
     [eapply worker_frame_ext; [| |exact P]; reflexivity
     |discriminate|assumption]|].
  rewrite ?Hfa2.
  destruct (faults w (OpZipCopy (length (fds w)))) eqn:E6;
    cbn [fst snd faults emit];
    [apply (worker_frame_deferred true src);
     [eapply worker_frame_ext; [| |exact P]; reflexivity
     |discriminate|assumption]|].
  exfalso. destruct Hfail as [H|[H|[H|[H|[H|H]]]]]; contradiction.
Qed.
(** ** The name of the open file *)

Lemma closed_lookup (h : nat) (o f : File) (l : list File) :
  l !! h = Some o ->
  <[h := f]> l !! h = Some f.
Proof. intros H. apply list_lookup_insert_eq. eapply lookup_lt_Some; eauto. Qed.

Lemma open_file_lookup (h : nat) (w : World) (o : File) :
  open_file h w = Some o -> fds w !! h = Some o /\ fopen o = true.
Proof.
  unfold open_file. destruct (fds w !! h) as [f|]; [|discriminate].
  destruct (fopen f) eqn:E; [|discriminate]. intros H; injection H as <-. auto.
Qed.

(** [Write] keeps the invariant of a sink that holds a handle. *)
Lemma Write_inv_some (r : fileRotator) (p : list Byte.byte) (w : World) (h : nat) :
  file r = Some h -> sink_inv (r, w) ->
  sink_inv (snd (fst (Write r p w)), snd (Write r p w)).
Proof.
  intros Hf Hinv.
  pose proof (needRotate_frame r w) as (_ & Hfd & _). cbn zeta in Hfd.
  destruct (Write_cases r p w h Hf)
    as [(_ & res & w' & Hw & ->)
       |[(_ & e0 & _ & ->)
        |[(_ & e0 & o & Ho & _ & _ & ->)
         |[(_ & o & e0 & r' & w' & Ho & _ & _ & Hon & ->)
          |(_ & o & r' & w2 & res & w' & Ho & _ & _ & Hon & Hw & ->)]]]];
    cbn [fst snd]; intros h' Hh'; cbn [fst snd] in *.
  - apply file_Write_spec in Hw. destruct Hw as (_ & Hfd' & _).
    rewrite Hfd', Hfd. now apply Hinv.
  - cbn [fds emit]. rewrite Hfd. now apply Hinv.
  - cbn [fds emit set_fds]. rewrite Hf in Hh'. injection Hh' as <-.
    apply open_file_lookup in Ho as [Ho _].
    eexists. split; [eapply closed_lookup; eauto|]. discriminate.
  - apply openNew_spec in Hon.
    destruct Hon as (pre & last & _ & _ & _ & _ & _ & _ & _ & -> & Hfd2 & _).
    cbn [closed_world fds set_date file] in *.
    rewrite Hf in Hh'. injection Hh' as <-. rewrite Hfd2, Hfd.
    apply open_file_lookup in Ho as [Ho _].
    eexists. split; [eapply closed_lookup; eauto|]. discriminate.
  - apply openNew_spec in Hon.
    destruct Hon as (pre & last & _ & _ & _ & _ & _ & _ & _ & -> & _ & Hfd2 & _).
    cbn [closed_world fds file path date] in *.
    apply file_Write_spec in Hw. destruct Hw as (_ & Hfd' & _).
    injection Hh' as <-. rewrite Hfd', Hfd2.
    rewrite lookup_app_r, Nat.sub_diag by lia.
    eexists. split; reflexivity.
Qed.

Lemma Write_inv (r : fileRotator) (p : list Byte.byte) (w : World) :
  sink_inv (r, w) -> sink_inv (snd (fst (Write r p w)), snd (Write r p w)).
Proof.
  intros Hinv. destruct (file r) as [h|] eqn:Hf.
  - now apply (Write_inv_some r p w h).
  - destruct (Write_none r p w Hf)
      as [(e0 & r' & w' & Hon & ->)|(r' & w' & Hon & ->)];
      apply openNew_spec in Hon;
      destruct Hon as (pre & last & _ & _ & _ & _ & _ & _ & Hcase).
    + destruct Hcase as (_ & Hr' & _). subst r'.
      intros h'. cbn. rewrite Hf. discriminate.
    + destruct Hcase as (_ & Hr' & _ & Hfd & _). subst r'.
      eapply Write_inv_some; [reflexivity|].
      intros h' Hh'. cbn [fst snd file path date time_Now fds] in *.
      injection Hh' as <-. rewrite Hfd.
      rewrite lookup_app_r, Nat.sub_diag by lia.
      eexists. split; reflexivity.
Qed.

Lemma Close_inv (r : fileRotator) (w : World) :
  sink_inv (r, w) -> sink_inv (snd (fst (Close r w)), snd (Close r w)).
Proof.
  intros Hinv. unfold Close, file_Sync, file_Close.
  destruct (file r) as [h|] eqn:Hf; [|exact Hinv].
  destruct (open_file h w) as [o|] eqn:Ho.
  - destruct (faults w (OpSync h)); [exact Hinv|].
    assert (Ho' : open_file h (emit (Call (OpSync h) None) w) = Some o) by exact Ho.
    rewrite Ho'. cbn [faults emit].
    apply open_file_lookup in Ho as [Ho _].
    destruct (faults w (OpClose h)); cbn [fst snd]; intros h' Hh';
      cbn [fst snd fds emit set_fds] in *;
      rewrite Hf in Hh'; injection Hh' as <-;
      (eexists; split; [eapply closed_lookup; eauto|discriminate]).
  - exact Hinv.
Qed.

Lemma act_inv (a : Action) (s : fileRotator * World) :
  sink_inv s -> sink_inv (act s a).
Proof.
  destruct s as [r w]. intros Hinv.
  destruct a as [p| |f|d f|i]; cbn [act fst snd].
  - pose proof (Write_inv r p w Hinv) as H.
    destruct (Write r p w) as [[res r'] w']. exact H.
  - pose proof (Close_inv r w Hinv) as H.
    destruct (Close r w) as [[res r'] w']. exact H.
  - exact Hinv.
  - exact Hinv.
  - intros h Hh. destruct (Hinv h Hh) as (f & Hl & Hn).
    exists f. split; [|assumption]. cbn [fst snd] in *.
    destruct (run_goroutine_keeps i w) as [_ Hk].
    rewrite Hk; [assumption|]. eapply lookup_lt_Some; eauto.
Qed.

Lemma run_inv (l : list Action) (s : fileRotator * World) :
  sink_inv s -> sink_inv (run l s).
Proof.
  revert s. induction l as [|a l IH]; intros s Hinv; [exact Hinv|].
  cbn [run fold_left]. apply IH, act_inv, Hinv.
Qed.

(** C8. All along the life of a sink, from the state in which it holds
    no file on, whatever is written, closed, refused by the system or run
    behind its back, the file it holds open has the name made of its
    directory and of its date: [Join] of the directory and of the date
    printed by the layout [2006_01_02] followed by [.log], that is, for a
    four-digit year, the cleaned directory, a separator, four digits, an
    underscore, two digits, an underscore, two digits and [.log].  The
    worker writes its archive under the name of the source followed by
    [.zip], with a single entry named after the base name of the source,
    and touches no other name than these two. *)
Theorem file_names_follow_the_date :
  (forall (r : fileRotator) (w : World) (l : list Action),
     file r = None -> name_inv (run l (r, w))) /\
  (forall (dir : string) (d : Time),
     valid_date d ->
     logName dir d = dir_prefix dir +:+ Format d +:+ ".log" /\
     Format d =
       String (utod (Year d / 1000)) (String (utod (Year d / 100 mod 10))
         (String (utod (Year d / 10 mod 10)) (String (utod (Year d mod 10))
         (String "_" (String (utod (Month d / 10)) (String (utod (Month d mod 10))
         (String "_" (String (utod (Day d / 10)) (String (utod (Day d mod 10))
         "")))))))))) /\
  (forall (src : string) (w : World) (data : list Byte.byte),
     files w !! src = Some (Plain data) -> no_faults w ->
     files (compressFile src w) !! (src +:+ ".zip")
       = Some (Archive [mkZipEntry (Base src) (Z.of_nat (length data)) data] true) /\
     files (compressFile src w) !! src = None) /\
  (forall (src : string) (w : World) (name : string),
     name <> src -> name <> src +:+ ".zip" ->
     files (compressFile src w) !! name = files w !! name).
Proof.
  split; [|split; [|split]].
  - intros r w l Hf.
    assert (Hinv : sink_inv (run l (r, w))).
    { apply run_inv. intros h. cbn. rewrite Hf. discriminate. }
    intros h f Hh Ho. apply open_file_lookup in Ho as [Hl Hopen].
    destruct (Hinv h Hh) as (f' & Hl' & Hn).
    rewrite Hl in Hl'. injection Hl' as <-. exact (Hn Hopen).
  - intros dir d Hv. split; [|now apply Format_valid].
    unfold logName. now rewrite Join_plain by now apply log_name_plain.
  - intros src w data Hsrc Hnf.
    rewrite (compressFile_success src w data Hsrc Hnf).
    split; [apply lookup_insert_eq|].
    rewrite lookup_insert_ne by (symmetry; apply zip_name_fresh).
    apply lookup_delete_eq.
  - exact compressFile_frame.
Qed.

Lemma file_names_follow_the_date_witness :
  name_inv (run [DoWrite hello; EnvFaults (deny_open (logName logs march6));
                 DoWrite hello; EnvRun 0; EnvFaults quiet; DoWrite hello; DoClose]
              (sink_new, world_new march5 quiet)) /\
  logName logs march5 = "/tmp/logs/2024_03_05.log" /\
  files (compressFile (logName logs march5) (world_rotated quiet))
    !! "/tmp/logs/2024_03_05.log.zip"
  = Some (Archive [mkZipEntry "2024_03_05.log" 5 hello] true).
Proof.
  destruct file_names_follow_the_date as (H1 & H2 & H3 & _).
  split; [apply H1; reflexivity|]. split.
  - destruct (H2 logs march5) as [-> ->];
      [unfold valid_date; cbn; lia|reflexivity].
  - exact (proj1 (H3 (logName logs march5) (world_rotated quiet) hello
                    eq_refl (fun _ => eq_refl))).
Defined.
(** ** [WithFields] *)




(** ** Instances of the rotation properties *)

Lemma Write_rotates_iff_date_differs_witness :
  rotations (new_events (world_open march6 quiet)
               (snd (Write sink_open hello (world_open march6 quiet)))) = 1%nat /\
  rotations (new_events (world_open march5 quiet)
               (snd (Write sink_open hello (world_open march5 quiet)))) = 0%nat.
Proof.
  split.
  - apply (proj1 (Write_rotates_iff_date_differs sink_open hello
                    (world_open march6 quiet) 0%nat march6 eq_refl eq_refl)).
    left. cbn. lia.
  - apply (proj2 (Write_rotates_iff_date_differs sink_open hello
                    (world_open march5 quiet) 0%nat march5 eq_refl eq_refl)).
    repeat split.
Defined.

(** * Further properties of the sink *)

(** ** Writes that succeed *)

Lemma openNew_no_fault (r r' : fileRotator) (d : Time) (w w' : World)
  (e : option error) :
  no_faults w -> openNew r d w = (e, r', w') -> e = None.
Proof.
  intros Hnf H. apply openNew_spec in H.
  destruct H as (pre & last & _ & _ & _ & _ & _ & _ & Hcase).
  destruct e as [e0|]; [|reflexivity].
  destruct Hcase as ([[_ Hc]|[_ Hc]] & _); rewrite Hnf in Hc; discriminate.
Qed.

(** What [openNew] does to the directories: it adds the directory of the
    sink when [Stat] finds nothing under that name and [MkdirAll] succeeds,
    and nothing else. *)
Lemma openNew_dirs (r : fileRotator) (d : Time) (w : World) :
  dirs (snd (openNew r d w)) =
  match faults w (OpStat (path r)), faults w (OpMkdirAll (path r)) with
  | None, None => if path_exists (path r) w then dirs w
                  else if bool_decide (path r ∈ dirs w) then dirs w
                       else path r :: dirs w
  | Some ErrNotExist, None => if bool_decide (path r ∈ dirs w) then dirs w
                              else path r :: dirs w
  | _, _ => dirs w
  end.
Proof.
  unfold openNew, os_Stat, os_MkdirAll, os_OpenFile, new_file; simpl.
  destruct (faults w (OpStat (path r))) as [es|] eqn:Hs;
    [destruct es|destruct (path_exists (path r) w)]; simpl;
    destruct (faults w (OpMkdirAll (path r))) as [em|] eqn:Hm; simpl;
    try reflexivity;
    destruct (faults w (OpOpenFile (Join (path r) (Format d +:+ ".log"))));
    simpl; try reflexivity;
    destruct (bool_decide (path r ∈ dirs w)); reflexivity.
Qed.

Lemma lookup_alter_append (m : gmap string Content) (name : string)
  (p : list Byte.byte) :
  alter (append_bytes p) name
    (match m !! name with Some _ => m | None => <[name := Plain []]> m end)
  = <[name := append_bytes p (default (Plain []) (m !! name))]> m.
Proof.
  apply map_eq. intros k. destruct (decide (k = name)) as [->|Hne].
  - rewrite lookup_insert_eq. destruct (m !! name) as [c|] eqn:E.
    + now rewrite lookup_alter_eq, E.
    + now rewrite lookup_alter_eq, lookup_insert_eq.
  - rewrite lookup_insert_ne by congruence.
    rewrite lookup_alter_ne by congruence.
    destruct (m !! name); [reflexivity|].
    now rewrite lookup_insert_ne by congruence.
Qed.

(** The first write of a sink, with no call failing and the clock on one
    date. *)
Lemma first_Write_spec (r : fileRotator) (p : list Byte.byte)
  (w : World) (now : Time) :
  file r = None -> no_faults w -> steady w 4 now ->
  let r' := snd (fst (Write r p w)) in
  let w' := snd (Write r p w) in
  let name := logName (path r) now in
  fst (fst (Write r p w)) = (Z.of_nat (length p), None) /\
  r' = mkRotator (path r) (Some (length (fds w))) (clock w (ticks w)) (compress r) /\
  open_file (length (fds w)) w' = Some (mkFile name true) /\
  files w' = <[name := append_bytes p (default (Plain []) (files w !! name))]> (files w) /\
  opens (new_events w w') = 1%nat /\ rotations (new_events w w') = 0%nat /\
  path_exists (path r) w' = true /\ faults w' = faults w.
Proof.
  intros Hf Hnf Hs. cbn zeta.
  assert (Hd0 : same_date (clock w (ticks w)) now).
  { rewrite <- (Nat.add_0_r (ticks w)). eapply steady_reading; [exact Hs|lia]. }
  pose proof (openNew_dirs r (clock w (ticks w)) (snd (time_Now w))) as Hdirs.
  destruct (Write_none r p w Hf)
    as [(e0 & r1 & w1 & Hon & _)|(r1 & w1 & Hon & ->)].
  { apply openNew_no_fault in Hon; [discriminate|exact Hnf]. }
  rewrite Hon in Hdirs. cbn [snd time_Now faults dirs] in Hdirs.
  rewrite !Hnf in Hdirs.
  apply openNew_spec in Hon.
  destruct Hon as (pre & last & Ht & Hpre & Hti & Hcl & Hfa & _ & Hl & -> & _ & Hfd & Hfi).
  cbn [time_Now snd trace ticks clock faults fds files] in *.
  rewrite (logName_same_date (path r) _ now Hd0) in *.
  set (r1 := mkRotator _ _ _ _).
  assert (Hs1 : steady w1 3 now).
  { apply steady_spec. intros k Hk. rewrite Hcl, Hti.
    replace (S (ticks w) + k)%nat with (ticks w + S k)%nat by lia.
    eapply steady_reading; [exact Hs|lia]. }
  pose proof (needRotate_steady r1 w1 now Hs1) as Hn.
  pose proof (needRotate_frame r1 w1) as (Htr & Hfd1 & Hfi1 & Hdi1 & Hfa1 & _).
  cbn zeta in *.
  destruct (Write_cases r1 p w1 (length (fds w)) eq_refl)
    as [(_ & res & w' & Hw & ->)|[(Hneed & _)|[(Hneed & _)|[(Hneed & _)|(Hneed & _)]]]];
    try (apply Hn in Hneed; exfalso; revert Hneed; apply not_differs_same;
         exact Hd0).
  cbn [fst snd].
  assert (Hopen : open_file (length (fds w)) (snd (needRotate r1 w1))
                  = Some (mkFile (logName (path r) now) true)).
  { unfold open_file. rewrite Hfd1, Hfd, lookup_app_r, Nat.sub_diag by lia.
    reflexivity. }
  apply file_Write_spec in Hw.
  destruct Hw as (Ht' & Hfd' & Hdi' & _ & _ & Hfa' & _ & Hres).
  destruct res as [n [e1|]]; cbn [fst snd] in *.
  { exfalso. destruct Hres as (_ & _ & [[Hc _]|[_ Hc]]).
    - rewrite Hopen in Hc. discriminate.
    - rewrite Hfa1, Hfa, Hnf in Hc. discriminate. }
  destruct Hres as (o & Ho & -> & Hfi').
  rewrite Hopen in Ho. injection Ho as <-. cbn [fname] in Hfi'.
  split; [reflexivity|]. split; [reflexivity|].
  split; [unfold open_file in Hopen |- *; rewrite Hfd'; exact Hopen|].
  split; [rewrite Hfi', Hfi1, Hfi; apply lookup_alter_append|].
  erewrite new_events_app
    by (rewrite Ht', Htr, Ht, <- !app_assoc; reflexivity).
  rewrite !opens_app, !rotations_app, (opens_probes pre Hpre),
    (rotations_probes pre Hpre), Hl.
  split; [reflexivity|]. split; [reflexivity|].
  split; [|now rewrite Hfa', Hfa1, Hfa].
  change (path_exists (path r) _) with (path_exists (path r) w) in Hdirs.
  assert (Hkeep : is_Some (files w !! path r) -> is_Some (files w' !! path r)).
  { intros [c Hc]. rewrite Hfi', Hfi1, Hfi, lookup_alter_append.
    destruct (decide (logName (path r) now = path r)) as [->|Hne].
    - rewrite lookup_insert_eq. eauto.
    - rewrite lookup_insert_ne by assumption. eauto. }
  unfold path_exists in Hdirs |- *. rewrite Hdi', Hdi1.
  apply orb_true_iff.
  destruct (bool_decide (path r ∈ dirs w)) eqn:E1; cbn [orb] in Hdirs.
  - left. apply bool_decide_eq_true. apply bool_decide_eq_true in E1.
    rewrite Hdirs. now destruct (bool_decide (is_Some (files w !! path r))).
  - destruct (bool_decide (is_Some (files w !! path r))) eqn:E2.
    + right. apply bool_decide_eq_true. apply bool_decide_eq_true in E2. auto.
    + left. apply bool_decide_eq_true. rewrite Hdirs. left.
Qed.

(** X1. The first write of a sink.  With no call failing and the clock
    on one date, [Write] on a sink that holds no file returns the length
    of the record and no error; it opens one file, the one of today, and
    keeps its handle and the time it read; no rotation takes place.  The
    record is the whole content of a new file and is appended to a file
    that was already there, which is not truncated; no other file
    changes, and the directory of the sink exists afterwards. *)
Theorem first_Write_opens_and_appends (r : fileRotator) (p : list Byte.byte)
  (w : World) (now : Time) :
  file r = None -> no_faults w -> steady w 4 now ->
  let r' := snd (fst (Write r p w)) in
  let w' := snd (Write r p w) in
  let name := logName (path r) now in
  fst (fst (Write r p w)) = (Z.of_nat (length p), None) /\
  path r' = path r /\ same_date (date r') now /\
  (exists h, file r' = Some h /\ open_file h w' = Some (mkFile name true)) /\
  opens (new_events w w') = 1%nat /\ rotations (new_events w w') = 0%nat /\
  (files w !! name = None -> files w' !! name = Some (Plain p)) /\
  (forall d, files w !! name = Some (Plain d) ->
     files w' !! name = Some (Plain (d ++ p))) /\
  (forall n, n <> name -> files w' !! n = files w !! n) /\
  path_exists (path r) w' = true.
Proof.
  intros Hf Hnf Hs.
  destruct (first_Write_spec r p w now Hf Hnf Hs)
    as (Hres & Hr & Ho & Hfi & Hop & Hrot & Hdir & _).
  cbn zeta in *. rewrite Hr, Hfi. cbn [path date file].
  split; [assumption|]. split; [reflexivity|].
  split.
  { rewrite <- (Nat.add_0_r (ticks w)). eapply steady_reading; [exact Hs|lia]. }
  split; [eauto|]. split; [assumption|]. split; [assumption|].
  split; [intros ->; apply lookup_insert_eq|].
  split; [intros d ->; apply lookup_insert_eq|].
  split; [|assumption].
  intros n Hn. now rewrite lookup_insert_ne by congruence.
Qed.

Lemma first_Write_opens_and_appends_witness :
  files (snd (Write sink_new hello (world_new march5 quiet)))
    !! logName logs march5 = Some (Plain hello).
Proof.
  pose proof (first_Write_opens_and_appends sink_new hello
                (world_new march5 quiet) march5
                eq_refl (fun _ => eq_refl) eq_refl) as H.
  cbv zeta in H. destruct H as (_ & _ & _ & _ & _ & _ & H & _).
  apply H. vm_compute. reflexivity.
Defined.
(** A write on the day of the open file, in full: the result and the file
    are those of [file.Write]. *)
Lemma Write_same_day_result (r : fileRotator) (p : list Byte.byte) (w : World)
  (h : nat) (o : File) (now : Time) :
  file r = Some h -> open_file h w = Some o ->
  same_date (date r) now -> steady w 3 now ->
  exists w',
    Write r p w =
      (match faults w (OpWrite h p) with
       | Some e => (0, Some e)
       | None => (Z.of_nat (length p), None)
       end, r, w') /\
    files w' = match faults w (OpWrite h p) with
               | Some _ => files w
               | None => alter (append_bytes p) (fname o) (files w)
               end /\
    trace w' = trace w ++ [Call (OpWrite h p) (faults w (OpWrite h p))] /\
    fds w' = fds w /\ faults w' = faults w /\ clock w' = clock w /\
    dirs w' = dirs w /\ goroutines w' = goroutines w /\
    (ticks w <= ticks w' <= ticks w + 3)%nat.
Proof.
  intros Hf Ho Hsame Hs.
  pose proof (needRotate_steady r w now Hs) as Hn.
  pose proof (needRotate_frame r w)
    as (Htr & Hfd & Hfi & Hdi & Hfa & Hcl & Hgo & Hti).
  cbn zeta in *.
  destruct (Write_cases r p w h Hf)
    as [(Hneed & res & w' & Hw & ->)|[(Hneed & _)|[(Hneed & _)|[(Hneed & _)|(Hneed & _)]]]];
    try (apply Hn in Hneed; now apply not_differs_same in Hsame).
  exists w'.
  assert (Ho1 : open_file h (snd (needRotate r w)) = Some o)
    by (unfold open_file in *; now rewrite Hfd).
  unfold file_Write in Hw. rewrite Ho1, Hfa in Hw.
  destruct (faults w (OpWrite h p)) as [e|]; injection Hw as <- <-;
    cbn [files fds faults clock dirs goroutines ticks trace emit set_files];
    rewrite ?Hfi, ?Htr; repeat split; auto; lia.
Qed.

(** X2. Records are appended whole and in order.  On a sink that holds
    the open file of today, with no call failing and the clock staying on
    that day, a sequence of writes leaves the sink as it is and the file
    with its former bytes followed by the records, one after the other;
    every write is one call on the handle, and no other file changes. *)
Theorem Writes_append_in_order (ps : list (list Byte.byte)) (r : fileRotator)
  (w : World) (h : nat) (o : File) (d : list Byte.byte) (now : Time) :
  file r = Some h -> open_file h w = Some o ->
  files w !! fname o = Some (Plain d) ->
  same_date (date r) now -> no_faults w ->
  steady w (3 * length ps) now ->
  let s' := run (map DoWrite ps) (r, w) in
  fst s' = r /\
  files (snd s') = <[fname o := Plain (d ++ concat ps)]> (files w) /\
  new_events w (snd s') = map (fun p => Call (OpWrite h p) None) ps /\
  open_file h (snd s') = Some o.
Proof.
  intros Hf Ho Hd Hsame Hnf Hs. cbn zeta.
  enough (H : fst (run (map DoWrite ps) (r, w)) = r /\
              files (snd (run (map DoWrite ps) (r, w)))
                = <[fname o := Plain (d ++ concat ps)]> (files w) /\
              trace (snd (run (map DoWrite ps) (r, w)))
                = trace w ++ map (fun p => Call (OpWrite h p) None) ps /\
              open_file h (snd (run (map DoWrite ps) (r, w))) = Some o).
  { destruct H as (H1 & H2 & H3 & H4).
    rewrite (new_events_app _ _ _ H3). auto. }
  revert w d Ho Hd Hnf Hs.
  induction ps as [|p ps IH]; intros w d Ho Hd Hnf Hs.
  - cbn. rewrite !app_nil_r, insert_id by assumption. auto.
  - cbn [map run fold_left act fst snd].
    destruct (Write_same_day_result r p w h o now Hf Ho Hsame)
      as (w' & -> & Hfi & Ht & Hfd & Hfa & Hcl & _ & _ & Hti).
    { eapply steady_le; [|exact Hs]. cbn [length]. lia. }
    rewrite Hnf in Hfi, Ht.
    fold (run (map DoWrite ps) (r, w')).
    destruct (IH w' (d ++ p)) as (Hr & Hfi' & Ht' & Ho').
    { unfold open_file in *. now rewrite Hfd. }
    { now rewrite Hfi, lookup_alter_eq, Hd. }
    { intros op. now rewrite Hfa. }
    { apply steady_spec. intros k Hk. rewrite Hcl.
      replace (ticks w' + k)%nat with (ticks w + (ticks w' - ticks w + k))%nat
        by lia.
      eapply steady_reading; [exact Hs|]. cbn [length]. lia. }
    split; [assumption|]. split; [|split; [|assumption]].
    + rewrite Hfi', Hfi. cbn [concat]. rewrite <- app_assoc.
      apply map_eq. intros k. destruct (decide (k = fname o)) as [->|Hne].
      * now rewrite !lookup_insert_eq.
      * rewrite !lookup_insert_ne by congruence.
        now rewrite lookup_alter_ne by congruence.
    + rewrite Ht', Ht, <- app_assoc. reflexivity.
Qed.


Lemma Writes_append_in_order_witness :
  files (snd (run (map DoWrite [hello; hello])
                (sink_open, world_open march5 quiet)))
    = <[logName logs march5 := Plain (hello ++ concat [hello; hello])]>
        (files (world_open march5 quiet)).
Proof.
  assert (Hd : same_date (date sink_open) march5) by (repeat split).
  assert (Hf : files (world_open march5 quiet)
                 !! fname (mkFile (logName logs march5) true)
               = Some (Plain hello)) by (vm_compute; reflexivity).
  pose proof (Writes_append_in_order [hello; hello] sink_open
                (world_open march5 quiet) 0%nat
                (mkFile (logName logs march5) true) hello march5
                eq_refl eq_refl Hf Hd (fun _ => eq_refl) eq_refl) as H.
  cbv zeta in H. destruct H as (_ & H & _). exact H.
Defined.

(** ** Errors of the flush and of the close *)

(** [Close] on a sink whose file is open. *)
Lemma Close_open (r : fileRotator) (w : World) (h : nat) (o : File) :
  file r = Some h -> open_file h w = Some o ->
  Close r w =
  match faults w (OpSync h) with
  | Some e => (Some e, r, emit (Call (OpSync h) (Some e)) w)
  | None =>
      (faults w (OpClose h), r,
       emit (Call (OpClose h) (faults w (OpClose h)))
         (set_fds (<[h := mkFile (fname o) false]> (fds w))
            (emit (Call (OpSync h) None) w)))
  end.
Proof.
  intros Hf Ho. unfold Close, file_Sync, file_Close. rewrite Hf, Ho.
  destruct (faults w (OpSync h)); [reflexivity|].
  assert (Ho' : open_file h (emit (Call (OpSync h) None) w) = Some o)
    by exact Ho.
  rewrite Ho'. cbn [faults emit].
  destruct (faults w (OpClose h)); reflexivity.
Qed.

(** X4. [Close] returns the first error it meets.  When the flush of the
    open file fails, [Close] returns that error without closing: the file
    is still open, and a second [Close], once nothing fails, closes it and
    returns no error.  When the flush succeeds, [Close] returns what the
    close of the file returns, and the file is closed even when that is an
    error.  The sink and the files are what they were in every case. *)
Theorem Close_returns_the_first_error (r : fileRotator) (w : World) (h : nat)
  (o : File) :
  file r = Some h -> open_file h w = Some o ->
  let w' := snd (Close r w) in
  snd (fst (Close r w)) = r /\ files w' = files w /\
  match faults w (OpSync h) with
  | Some e =>
      fst (fst (Close r w)) = Some e /\ open_file h w' = Some o /\
      new_events w w' = [Call (OpSync h) (Some e)] /\
      fst (fst (Close r (set_faults quiet w'))) = None /\
      closed_handle h (snd (Close r (set_faults quiet w')))
  | None =>
      fst (fst (Close r w)) = faults w (OpClose h) /\ closed_handle h w' /\
      new_events w w' = [Call (OpSync h) None; Call (OpClose h) (faults w (OpClose h))]
  end.
Proof.
  intros Hf Ho. pose proof (open_file_lookup _ _ _ Ho) as [Hl _].
  assert (Hclosed : forall w0 e', fds w0 = fds w ->
            closed_handle h
              (emit e' (set_fds (<[h := mkFile (fname o) false]> (fds w0))
                          (emit (Call (OpSync h) None) w0)))).
  { intros w0 e' Hfd. eexists. cbn [fds emit set_fds]. rewrite Hfd.
    split; [eapply closed_lookup; eauto|reflexivity]. }
  cbn zeta. rewrite (Close_open r w h o Hf Ho).
  destruct (faults w (OpSync h)) as [e|] eqn:Hs; cbn [fst snd files emit set_fds].
  - split; [reflexivity|]. split; [reflexivity|]. split; [reflexivity|].
    split; [exact Ho|].
    split; [apply new_events_app; reflexivity|].
    rewrite (Close_open r (set_faults quiet (emit (Call (OpSync h) (Some e)) w)) h o Hf Ho).
    cbn [faults set_faults quiet fst snd].
    split; [reflexivity|]. apply Hclosed. reflexivity.
  - split; [reflexivity|]. split; [reflexivity|]. split; [reflexivity|].
    split; [apply Hclosed; reflexivity|].
    apply new_events_app. cbn [trace emit set_fds]. now rewrite <- app_assoc.
Qed.

(** X5. A rotation that cannot flush the old file is tried again.  When
    the date has changed and the flush of the open file fails, [Write]
    returns that error and zero; nothing is closed, nothing is opened, no
    task is started, and the sink keeps its date and its open file.  The
    next [Write], once nothing fails, rotates: it opens the file of today
    and writes the record. *)
Theorem failed_flush_is_tried_again (r : fileRotator) (p : list Byte.byte)
  (w : World) (h : nat) (o : File) (e : error) (now : Time) :
  file r = Some h -> open_file h w = Some o ->
  differs (date r) now -> steady w 7 now ->
  faults w (OpSync h) = Some e ->
  let w' := snd (Write r p w) in
  let w2 := snd (Write r p (set_faults quiet w')) in
  fst (Write r p w) = ((0, Some e), r) /\
  new_events w w' = [Call (OpSync h) (Some e)] /\
  files w' = files w /\ open_file h w' = Some o /\
  goroutines w' = goroutines w /\
  fst (fst (Write r p (set_faults quiet w'))) = (Z.of_nat (length p), None) /\
  rotations (new_events (set_faults quiet w') w2) = 1%nat /\
  (exists h', file (snd (fst (Write r p (set_faults quiet w')))) = Some h' /\
     open_file h' w2 = Some (mkFile (logName (path r) now) true)).
Proof.
  intros Hf Ho Hdiff Hs He. cbn zeta.
  pose proof (needRotate_steady r w now (steady_le w 7 3 now ltac:(lia) Hs)) as Hn.
  pose proof (needRotate_frame r w)
    as (Htr & Hfd & Hfi & _ & _ & Hcl & Hgo & Hti).
  cbn zeta in *.
  destruct (Write_cases r p w h Hf)
    as [(Hneed & _)
       |[(_ & e0 & [[Hc _]|[_ Hc]] & HW)
        |[(_ & e0 & o' & _ & Hc & _)
         |[(_ & o' & e0 & r' & w' & _ & Hc & _)
          |(_ & o' & r' & w2 & res & w' & _ & Hc & _)]]]];
    try congruence.
  { apply Hn in Hdiff. congruence. }
  assert (e0 = e) by congruence. subst e0.
  rewrite HW. cbn [fst snd files emit goroutines].
  set (w' := emit (Call (OpSync h) (Some e)) (snd (needRotate r w))).
  assert (Ho' : open_file h (set_faults quiet w') = Some o)
    by (unfold open_file in *; cbn [fds set_faults w' emit]; now rewrite Hfd).
  split; [reflexivity|].
  split; [apply new_events_app; cbn [trace emit w']; now rewrite Htr|].
  split; [assumption|]. split; [exact Ho'|]. split; [assumption|].
  destruct (Write_rollover r p (set_faults quiet w') h o now Hf Ho')
    as (r2 & w2 & evs & HW2 & Ht2 & Hrot & _ & _ & _ & Hf2 & Ho2 & _);
    [intros op; reflexivity|exact Hdiff| |].
  { apply steady_spec. intros k Hk. cbn [clock ticks set_faults emit w'].
    rewrite Hcl.
    replace (ticks (snd (needRotate r w)) + k)%nat
      with (ticks w + (ticks (snd (needRotate r w)) - ticks w + k))%nat by lia.
    eapply steady_reading; [exact Hs|]. lia. }
  rewrite HW2. cbn [fst snd]. rewrite (new_events_app _ _ _ Ht2).
  split; [reflexivity|]. split; [assumption|].
  eexists; split; [exact Hf2|]; exact Ho2.
Qed.

Lemma Close_returns_the_first_error_witness :
  let stuck := fun op => match op with
                         | OpSync _ => Some ErrIO
                         | _ => None
                         end in
  fst (fst (Close sink_open (world_open march5 stuck))) = Some ErrIO /\
  open_file 0 (snd (Close sink_open (world_open march5 stuck)))
    = Some (mkFile (logName logs march5) true).
Proof.
  intros stuck.
  pose proof (Close_returns_the_first_error sink_open
                (world_open march5 stuck) 0%nat
                (mkFile (logName logs march5) true) eq_refl eq_refl) as H.
  cbv zeta in H. destruct H as (_ & _ & H).
  change (faults (world_open march5 stuck) (OpSync 0)) with (Some ErrIO) in H.
  destruct H as (H1 & H2 & _). split; assumption.
Defined.

Lemma failed_flush_is_tried_again_witness :
  let stuck := fun op => match op with
                         | OpSync _ => Some ErrIO
                         | _ => None
                         end in
  fst (Write sink_open hello (world_open march6 stuck))
    = ((0, Some ErrIO), sink_open).
Proof.
  intros stuck.
  assert (Hd : differs (date sink_open) march6) by (left; cbn; lia).
  pose proof (failed_flush_is_tried_again sink_open hello
                (world_open march6 stuck) 0%nat
                (mkFile (logName logs march5) true) ErrIO march6
                eq_refl eq_refl Hd eq_refl eq_refl) as H.
  cbv zeta in H. destruct H as (H & _). exact H.
Defined.
(** ** The directory, midnight, and a write followed by a close *)

(** X6. [openNew] creates the directory only when it is missing.  It
    calls [MkdirAll] exactly when [Stat] reports that nothing exists under
    the name of the directory, and it goes on to open the file unless
    [MkdirAll] failed: when [Stat] fails in another way, the file is opened
    without any attempt to create the directory.  The date is stored
    whatever happens. *)
Theorem openNew_creates_only_a_missing_directory (r : fileRotator) (d : Time)
  (w : World) :
  let evs := new_events w (snd (openNew r d w)) in
  let missing := is_not_exist (fst (os_Stat (path r) w)) in
  mkdirs evs = (if missing then 1%nat else 0%nat) /\
  opens evs = (if missing && bool_decide (is_Some (faults w (OpMkdirAll (path r))))
               then 0%nat else 1%nat) /\
  date (snd (fst (openNew r d w))) = d /\
  path (snd (fst (openNew r d w))) = path r.
Proof.
  cbn zeta. unfold new_events, mkdirs, opens.
  unfold openNew, os_Stat, os_MkdirAll, os_OpenFile, new_file; simpl.
  destruct (faults w (OpStat (path r))) as [es|] eqn:Hs;
    [destruct es|destruct (path_exists (path r) w)]; simpl.
  all: destruct (faults w (OpMkdirAll (path r))) as [em|] eqn:Hm; simpl.
  all: try (destruct (faults w (OpOpenFile (Join (path r) (Format d +:+ ".log"))))
              as [eo|] eqn:Ho; simpl).
  all: rewrite <- ?app_assoc, drop_app_length; simpl.
  all: repeat split; try reflexivity.
  all: try (rewrite bool_decide_eq_true_2 by eauto; reflexivity).
  all: try (rewrite bool_decide_eq_false_2 by (intros [? ?]; discriminate);
            reflexivity).
Qed.

Lemma differs_same_date_l (a b c : Time) :
  same_date a b -> differs b c -> differs a c.
Proof.
  intros (Hd & Hm & Hy). unfold differs. now rewrite Hd, Hm, Hy.
Qed.

(** A rotation that succeeds leaves the old handle closed. *)
Lemma Write_rollover_closed (r : fileRotator) (p : list Byte.byte) (w : World)
  (h : nat) (o : File) (now : Time) :
  file r = Some h -> open_file h w = Some o -> no_faults w ->
  differs (date r) now -> steady w 4 now ->
  closed_handle h (snd (Write r p w)).
Proof.
  intros Hf Ho Hnf Hdiff Hs.
  destruct (Write_rollover r p w h o now Hf Ho Hnf Hdiff Hs)
    as (r' & w' & evs & HW & _).
  pose proof (needRotate_steady r w now (steady_le w 4 3 now ltac:(lia) Hs)) as Hn.
  pose proof (needRotate_frame r w) as (_ & Hfd & _). cbn zeta in *.
  pose proof (open_file_lookup _ _ _ Ho) as [Hl _].
  destruct (Write_cases r p w h Hf)
    as [(Hneed & _)
       |[(_ & e0 & _ & HW')
        |[(_ & e0 & o' & _ & _ & _ & HW')
         |[(_ & o' & e0 & r2 & w2 & _ & _ & _ & _ & HW')
          |(_ & o' & r2 & w2 & res & w3 & _ & _ & _ & Hon & Hw & HW')]]]];
    try (rewrite HW in HW'; discriminate).
  { apply Hn in Hdiff. congruence. }
  rewrite HW'. cbn [snd].
  apply openNew_spec in Hon.
  destruct Hon as (pre & last & _ & _ & _ & _ & _ & _ & _ & -> & _ & Hfd2 & _).
  cbn [closed_world fds file] in *.
  apply file_Write_spec in Hw. destruct Hw as (_ & Hfd3 & _).
  exists (mkFile (fname o') false). rewrite Hfd3, Hfd2, Hfd.
  split; [|reflexivity].
  rewrite lookup_app_l by (rewrite length_insert; eapply lookup_lt_Some; eauto).
  eapply closed_lookup; eauto.
Qed.

(** X7. A first write across midnight makes two files.  When the sink
    holds no file and the day changes between the clock reading that dates
    the new file and the readings that follow, one call of [Write] opens
    the file of the day that has ended, rotates away from it at once,
    opens the file of the new day and writes the record there: the call
    succeeds, opens two files and performs one rotation. *)
Theorem first_Write_across_midnight (r : fileRotator) (p : list Byte.byte)
  (w : World) (d0 d1 : Time) :
  file r = None -> no_faults w ->
  same_date (clock w (ticks w)) d0 ->
  steady (snd (time_Now w)) 4 d1 ->
  differs d0 d1 ->
  let r' := snd (fst (Write r p w)) in
  let w' := snd (Write r p w) in
  fst (fst (Write r p w)) = (Z.of_nat (length p), None) /\
  rotations (new_events w w') = 1%nat /\
  opens (new_events w w') = 2%nat /\
  dom (files w') = dom (files w) ∪ {[ logName (path r) d0 ]}
                     ∪ {[ logName (path r) d1 ]} /\
  same_date (date r') d1 /\
  closed_handle (length (fds w)) w' /\
  exists h', file r' = Some h' /\
    open_file h' w' = Some (mkFile (logName (path r) d1) true).
Proof.
  intros Hf Hnf Hd0 Hs Hdiff. cbn zeta.
  destruct (Write_none r p w Hf)
    as [(e0 & r1 & w1 & Hon & _)|(r1 & w1 & Hon & ->)].
  { apply openNew_no_fault in Hon; [discriminate|exact Hnf]. }
  apply openNew_spec in Hon.
  destruct Hon as (pre & last & Ht & Hpre & Hti & Hcl & Hfa & _ & Hl & -> & _ & Hfd & Hfi).
  cbn [time_Now snd trace ticks clock faults fds files] in *.
  rewrite (logName_same_date (path r) _ d0 Hd0) in *.
  set (r1 := mkRotator _ _ _ _).
  assert (Ho1 : open_file (length (fds w)) w1
                = Some (mkFile (logName (path r) d0) true)).
  { unfold open_file. rewrite Hfd, lookup_app_r, Nat.sub_diag by lia.
    reflexivity. }
  assert (Hs1 : steady w1 4 d1).
  { apply steady_spec. intros k Hk. rewrite Hcl, Hti.
    apply (proj1 (steady_spec _ _ _) Hs k Hk). }
  assert (Hnf1 : no_faults w1) by (intros op; now rewrite Hfa).
  assert (Hdiff1 : differs (date r1) d1)
    by (eapply differs_same_date_l; [exact Hd0|exact Hdiff]).
  pose proof (Write_rollover_closed r1 p w1 _ _ d1 eq_refl Ho1 Hnf1 Hdiff1 Hs1)
    as Hclosed.
  destruct (Write_rollover r1 p w1 _ _ d1 eq_refl Ho1 Hnf1 Hdiff1 Hs1)
    as (r2 & w2 & evs & HW & Ht2 & Hrot & Hop & _ & Hd2 & Hf2 & Ho2 & Hdom).
  rewrite HW in *. cbn [fst snd] in *.
  erewrite new_events_app by (rewrite Ht2, Ht, <- !app_assoc; reflexivity).
  rewrite !rotations_app, !opens_app, (rotations_probes pre Hpre),
    (opens_probes pre Hpre), Hrot, Hop, Hl.
  split; [reflexivity|]. split; [reflexivity|]. split; [reflexivity|].
  split.
  { rewrite Hdom, Hfi. cbn [path r1].
    destruct (files w !! logName (path r) d0) eqn:E.
    - apply (elem_of_dom_2 (D := gset string)) in E.
      f_equal. rewrite union_comm_L. symmetry.
      apply subseteq_union_1_L, singleton_subseteq_l, E.
    - rewrite dom_insert_L. f_equal. apply union_comm_L. }
  split; [assumption|]. split; [assumption|eauto].
Qed.

(** X8. A record written and the sink closed.  With no call failing and
    the clock on one date, a [Write] on a sink that holds no file followed
    by [Close] both return no error; the file of today holds the record
    after what it held before, it was flushed and closed in that order
    after the write, and closing changes no file. *)
Theorem Write_then_Close (r : fileRotator) (p : list Byte.byte) (w : World)
  (now : Time) :
  file r = None -> no_faults w -> steady w 4 now ->
  let r1 := snd (fst (Write r p w)) in
  let w1 := snd (Write r p w) in
  let w2 := snd (Close r1 w1) in
  let name := logName (path r) now in
  fst (fst (Write r p w)) = (Z.of_nat (length p), None) /\
  fst (fst (Close r1 w1)) = None /\
  files w2 = <[name := append_bytes p (default (Plain []) (files w !! name))]> (files w) /\
  new_events w1 w2 = [Call (OpSync (length (fds w))) None;
                      Call (OpClose (length (fds w))) None] /\
  closed_handle (length (fds w)) w2.
Proof.
  intros Hf Hnf Hs.
  destruct (first_Write_spec r p w now Hf Hnf Hs)
    as (Hres & Hr & Ho & Hfi & _ & _ & _ & Hfa).
  cbn zeta in *. split; [assumption|].
  assert (Hf1 : file (snd (fst (Write r p w))) = Some (length (fds w)))
    by now rewrite Hr.
  rewrite (Close_open _ _ _ _ Hf1 Ho), Hfa, !Hnf.
  cbn [fst snd files emit set_fds].
  split; [reflexivity|]. split; [assumption|].
  split; [apply new_events_app; cbn [trace emit set_fds];
          now rewrite <- app_assoc|].
  apply open_file_lookup in Ho as [Hl _].
  eexists. cbn [fds emit set_fds].
  split; [eapply closed_lookup; eauto|reflexivity].
Qed.

(** The clock passes midnight after its first reading. *)
Lemma first_Write_across_midnight_witness :
  let w := mkWorld (fun k => match k with O => march5 | S _ => march6 end)
             0 quiet [logs] ∅ [] [] [] in
  opens (new_events w (snd (Write sink_new hello w))) = 2%nat /\
  dom (files (snd (Write sink_new hello w)))
    = dom (files w) ∪ {[ logName logs march5 ]} ∪ {[ logName logs march6 ]}.
Proof.
  intros w.
  assert (H0 : same_date (clock w (ticks w)) march5) by (repeat split).
  assert (Hd : differs march5 march6) by (left; cbn; lia).
  pose proof (first_Write_across_midnight sink_new hello w march5 march6
                eq_refl (fun _ => eq_refl) H0 eq_refl Hd) as H.
  cbv zeta in H. destruct H as (_ & _ & H1 & H2 & _). split; assumption.
Defined.

Lemma Write_then_Close_witness :
  fst (fst (Close (snd (fst (Write sink_new hello (world_new march5 quiet))))
              (snd (Write sink_new hello (world_new march5 quiet))))) = None /\
  closed_handle 0 (snd (Close (snd (fst (Write sink_new hello
                                           (world_new march5 quiet))))
                          (snd (Write sink_new hello (world_new march5 quiet))))).
Proof.
  pose proof (Write_then_Close sink_new hello (world_new march5 quiet) march5
                eq_refl (fun _ => eq_refl) eq_refl) as H.
  cbv zeta in H. destruct H as (_ & H1 & _ & _ & H2). split; assumption.
Defined.
(** * Further properties of the compression worker *)

Lemma file_Close_length (f : option nat) (w : World) :
  length (fds (snd (file_Close f w))) = length (fds w).
Proof.
  unfold file_Close. destruct f as [h|]; [|reflexivity].
  destruct (open_file h w); cbn [snd fds emit set_fds]; [|reflexivity].
  apply length_insert.
Qed.

Lemma file_Close_at (k : nat) (w : World) (f : File) :
  fds (snd (file_Close (Some k) w)) !! k = Some f -> fopen f = false.
Proof.
  unfold file_Close, open_file.
  destruct (fds w !! k) as [o|] eqn:E; cbn [snd fds emit set_fds].
  - destruct (fopen o) eqn:Eo; cbn [snd fds emit set_fds].
    + rewrite list_lookup_insert_eq by (eapply lookup_lt_Some; eauto).
      intros H; injection H as <-. reflexivity.
    + rewrite E. intros H; injection H as <-. assumption.
  - rewrite E. discriminate.
Qed.

Lemma file_Close_other (k j : nat) (w : World) :
  j <> k -> fds (snd (file_Close (Some k) w)) !! j = fds w !! j.
Proof.
  intros Hne. unfold file_Close.
  destruct (open_file k w); cbn [snd fds emit set_fds]; [|reflexivity].
  apply list_lookup_insert_ne. congruence.
Qed.

Lemma file_Close_frame (f : option nat) (w : World) :
  faults (snd (file_Close f w)) = faults w /\
  dirs (snd (file_Close f w)) = dirs w /\
  clock (snd (file_Close f w)) = clock w /\
  ticks (snd (file_Close f w)) = ticks w /\
  goroutines (snd (file_Close f w)) = goroutines w.
Proof.
  unfold file_Close. destruct f as [h|]; [|auto].
  destruct (open_file h w); auto.
Qed.

Lemma os_Remove_frame (name : string) (w : World) :
  faults (snd (os_Remove name w)) = faults w /\
  dirs (snd (os_Remove name w)) = dirs w /\
  clock (snd (os_Remove name w)) = clock w /\
  ticks (snd (os_Remove name w)) = ticks w /\
  goroutines (snd (os_Remove name w)) = goroutines w.
Proof.
  unfold os_Remove. cbn [snd].
  destruct (faults w (OpRemove name)); [auto|].
  destruct (files w !! name); auto.
Qed.

(** The two handles of the worker are closed by its deferred calls. *)
Lemma deferred_closes (n : nat) (zw : list ZipEntry) (w : World) (h : nat)
  (f : File) :
  length (fds w) = S (S n) -> (n <= h)%nat ->
  fds (snd (file_Close (Some n)
         (snd (file_Close (Some (S n)) (snd (zip_Close (S n) zw w)))))) !! h
    = Some f ->
  fopen f = false.
Proof.
  intros Hlen Hh Hl.
  assert (Hlt : (h < S (S n))%nat).
  { apply lookup_lt_Some in Hl. rewrite !file_Close_length in Hl.
    cbn [zip_Close snd fds emit set_files] in Hl. lia. }
  destruct (decide (h = n)) as [->|Hne].
  - eapply file_Close_at; eauto.
  - assert (h = S n) by lia. subst h.
    rewrite file_Close_other in Hl by lia.
    eapply file_Close_at; eauto.
Qed.

(** X9. The worker closes every file it opens.  Whatever fails, when
    [compressFile] returns, each file object that it created, for the
    source or for the archive, is closed. *)
Theorem compressFile_closes_what_it_opens (src : string) (w : World) (h : nat)
  (f : File) :
  (length (fds w) <= h)%nat ->
  fds (compressFile src w) !! h = Some f ->
  fopen f = false.
Proof.
  intros Hh. unfold compressFile.
  pose proof (os_Open_fds src w) as H1.
  destruct (os_Open src w) as [[file|e] w1]; cbn [fst snd] in H1.
  2:{ subst w1. cbn [fds emit]. intros Hl. apply lookup_lt_Some in Hl. lia. }
  destruct H1 as (-> & Hfd1 & _).
  assert (Hlen1 : length (fds w1) = S (length (fds w)))
    by (rewrite Hfd1, length_app; cbn; lia).
  pose proof (os_Create_fds (src +:+ ".zip") w1) as H2.
  destruct (os_Create (src +:+ ".zip") w1) as [[zipFile|e] w2];
    cbn [fst snd] in H2.
  2:{ destruct H2 as [Hfd2 _]. intros Hl.
      assert (h = length (fds w)).
      { apply lookup_lt_Some in Hl. rewrite file_Close_length, Hfd2 in Hl. lia. }
      subst h. eapply file_Close_at; eauto. }
  destruct H2 as (-> & Hfd2 & _). rewrite Hlen1.
  assert (Hlen2 : length (fds w2) = S (S (length (fds w))))
    by (rewrite Hfd2, length_app; cbn; lia).
  unfold file_Stat, zip_FileInfoHeader, zip_CreateHeader, io_Copy.
  repeat match goal with
         | |- context [match ?x with _ => _ end] =>
             lazymatch x with
             | open_file _ _ => destruct x
             | faults _ _ => destruct x
             end
         end;
    cbn [fst snd]; apply deferred_closes; try assumption.
  all: now rewrite os_Remove_fds, file_Close_length.
Qed.

Lemma compressFile_closes_what_it_opens_witness :
  fopen (mkFile (logName logs march5 +:+ ".zip") false) = false.
Proof.
  apply (compressFile_closes_what_it_opens (logName logs march5)
           (world_rotated disk_full_at_close) 2%nat).
  - cbn. lia.
  - vm_compute. reflexivity.
Defined.
(** X10. Without a source that can be read, or without an archive file
    that can be created, the worker changes no file.  When the source does
    not exist or cannot be opened, [compressFile] makes that single call,
    creates no file object and leaves the file system as it is; when the
    archive file cannot be created, no archive appears and the source and
    every other file are what they were. *)
Theorem compressFile_gives_up_early (src : string) (w : World) :
  (files w !! src = None \/ faults w (OpOpen src) <> None ->
   exists e, compressFile src w = emit (Call (OpOpen src) (Some e)) w) /\
  (faults w (OpCreate (src +:+ ".zip")) <> None ->
   files (compressFile src w) = files w).
Proof.
  split.
  - intros H. unfold compressFile, os_Open.
    destruct (faults w (OpOpen src)) as [e|]; [eauto|].
    destruct H as [H|H]; [|contradiction]. rewrite H. eauto.
  - intros H. unfold compressFile.
    pose proof (os_Open_fds src w) as H1.
    destruct (os_Open src w) as [[file|e] w1]; cbn [fst snd] in H1.
    2:{ now subst w1. }
    destruct H1 as (_ & _ & Hfi1 & Hfa1 & _).
    unfold os_Create. rewrite Hfa1.
    destruct (faults w (OpCreate (src +:+ ".zip"))); [|contradiction].
    now rewrite file_Close_files.
Qed.

Lemma compressFile_gives_up_early_witness :
  files (compressFile "/tmp/logs/none.log" (world_rotated quiet))
    = files (world_rotated quiet) /\
  files (compressFile (logName logs march5)
           (world_rotated (fun op => match op with
                                     | OpCreate _ => Some ErrPermission
                                     | _ => None
                                     end)))
    = files (world_rotated quiet).
Proof.
  split.
  - destruct (proj1 (compressFile_gives_up_early "/tmp/logs/none.log"
                       (world_rotated quiet)) (or_introl eq_refl)) as (e & ->).
    reflexivity.
  - apply (proj2 (compressFile_gives_up_early (logName logs march5)
                    (world_rotated (fun op => match op with
                                              | OpCreate _ => Some ErrPermission
                                              | _ => None
                                              end)))).
    discriminate.
Defined.



(** ** A rotation and the compression that follows it *)

Lemma same_env_trans (w1 w2 w3 : World) :
  same_env w1 w2 -> same_env w2 w3 -> same_env w1 w3.
Proof.
  unfold same_env. intros (-> & -> & -> & -> & ->) (-> & -> & -> & -> & ->).
  auto.
Qed.

Lemma same_env_emit (e : Event) (w0 w : World) :
  same_env w0 w -> same_env w0 (emit e w).
Proof. auto. Qed.

Lemma same_env_Close (f : option nat) (w0 w : World) :
  same_env w0 w -> same_env w0 (snd (file_Close f w)).
Proof.
  intros H. eapply same_env_trans; [exact H|]. apply file_Close_frame.
Qed.

Lemma same_env_Remove (name : string) (w0 w : World) :
  same_env w0 w -> same_env w0 (snd (os_Remove name w)).
Proof.
  intros H. eapply same_env_trans; [exact H|]. apply os_Remove_frame.
Qed.

Lemma same_env_zip_Close (hz : nat) (zw : list ZipEntry) (w0 w : World) :
  same_env w0 w -> same_env w0 (snd (zip_Close hz zw w)).
Proof. auto. Qed.

Lemma compressFile_env (src : string) (w : World) :
  same_env w (compressFile src w).
Proof.
  assert (R : same_env w w) by (repeat split).
  unfold compressFile.
  pose proof (os_Open_fds src w) as H1.
  assert (E1 : same_env w (snd (os_Open src w))).
  { unfold os_Open. destruct (faults w (OpOpen src)); [exact R|].
    destruct (files w !! src); exact R. }
  destruct (os_Open src w) as [[file|e] w1]; cbn [fst snd] in *; [|exact E1].
  assert (E2 : same_env w (snd (os_Create (src +:+ ".zip") w1))).
  { eapply same_env_trans; [exact E1|]. unfold os_Create.
    destruct (faults w1 (OpCreate (src +:+ ".zip"))); repeat split. }
  destruct (os_Create (src +:+ ".zip") w1) as [[zipFile|e] w2];
    cbn [fst snd] in *; [|now apply same_env_Close].
  unfold file_Stat, zip_FileInfoHeader, zip_CreateHeader, io_Copy.
  repeat match goal with
         | |- context [match ?x with _ => _ end] =>
             lazymatch x with
             | open_file _ _ => destruct x
             | faults _ _ => destruct x
             end
         end;
    cbn [fst snd];
    repeat first [ apply same_env_Close | apply same_env_zip_Close
                 | apply same_env_Remove | apply same_env_emit ];
    exact E2.
Qed.

(** The world a rotation leaves when no call fails. *)
Lemma Write_rollover_world (r : fileRotator) (p : list Byte.byte) (w : World)
  (h : nat) (o : File) (now : Time) :
  file r = Some h -> open_file h w = Some o -> no_faults w ->
  differs (date r) now -> steady w 4 now ->
  let w' := snd (Write r p w) in
  let name := logName (path r) now in
  goroutines w' = goroutines w ++ (if compress r then [fname o] else []) /\
  fds w' = <[h := mkFile (fname o) false]> (fds w) ++ [mkFile name true] /\
  files w' = <[name := append_bytes p (default (Plain []) (files w !! name))]>
               (files w) /\
  faults w' = faults w.
Proof.
  intros Hf Ho Hnf Hdiff Hs.
  pose proof (needRotate_steady r w now (steady_le w 4 3 now ltac:(lia) Hs)) as Hn.
  pose proof (needRotate_frame r w) as (Htr & Hfd & Hfi & _ & Hfa & Hcl & Hgo & Hti).
  cbn zeta in *.
  destruct (Write_cases r p w h Hf)
    as [(Hneed & _)
       |[(_ & e0 & [[Hc _]|[_ Hc]] & _)
        |[(_ & e0 & o' & _ & _ & Hc & _)
         |[(_ & o' & e0 & r' & w' & Ho' & _ & _ & Hon & _)
          |(_ & o' & r' & w2 & res & w' & Ho' & _ & _ & Hon & Hw & ->)]]]].
  - apply Hn in Hdiff. congruence.
  - congruence.
  - rewrite Hnf in Hc. discriminate.
  - rewrite Hnf in Hc. discriminate.
  - apply openNew_spec in Hon.
    destruct Hon as (_ & _ & _ & _ & _ & _ & _ & _ & [[_ Hc]|[_ Hc]] & _);
      cbn [faults closed_world] in Hc; rewrite Hfa, Hnf in Hc; discriminate.
  - assert (Ho'' : o' = o) by congruence. subst o'.
    set (d := clock w (ticks (snd (needRotate r w)))) in *.
    assert (Hd : same_date d now).
    { unfold d.
      replace (ticks (snd (needRotate r w)))
        with (ticks w + (ticks (snd (needRotate r w)) - ticks w))%nat by lia.
      eapply steady_reading; [exact Hs|]. lia. }
    rewrite <- (logName_same_date (path r) d now Hd).
    apply openNew_spec in Hon.
    destruct Hon as (pre & last & _ & _ & _ & _ & Hfa2 & Hgo2 & _ & -> & _ & Hfd2 & Hfi2).
    cbn [file closed_world fds files trace faults goroutines] in *.
    apply file_Write_spec in Hw.
    destruct Hw as (_ & Hfd' & _ & _ & _ & Hfa' & Hgo' & Hres).
    assert (Hopen : open_file (length (<[h := mkFile (fname o) false]> (fds (snd (needRotate r w))))) w2
                    = Some (mkFile (logName (path r) d) true)).
    { unfold open_file. rewrite Hfd2, lookup_app_r by lia.
      rewrite Nat.sub_diag. reflexivity. }
    destruct (snd res) as [e1|] eqn:Hres2.
    + exfalso. destruct Hres as (_ & _ & [[Hc _]|[_ Hc]]).
      * rewrite Hopen in Hc. discriminate.
      * rewrite Hfa2, Hfa, Hnf in Hc. discriminate.
    + destruct Hres as (o2 & Ho2 & _ & Hfi').
      rewrite Hopen in Ho2. injection Ho2 as <-. cbn [fname] in Hfi'.
      cbn [snd].
      split; [rewrite Hgo', Hgo2, Hgo; reflexivity|].
      split; [rewrite Hfd', Hfd2, Hfd; reflexivity|].
      split; [rewrite Hfi', Hfi2, Hfi; apply lookup_alter_append|].
      now rewrite Hfa', Hfa2, Hfa.
Qed.

(** X12. A rotation followed by the compression it started, when no call
    fails.  The rotating [Write] starts one task, for the file it closed;
    once that task has run, the closed file is gone and its bytes are the
    one entry of a complete archive under its name followed by [.zip];
    the record is in the file of today, whose handle the sink holds and
    which is still open; no other file has changed.  The name of the
    closed file and the name of its archive are taken to differ from the
    name of the file of today. *)
Theorem rotation_then_compression (r : fileRotator) (p : list Byte.byte)
  (w : World) (h : nat) (o : File) (d : list Byte.byte) (now : Time) :
  file r = Some h -> open_file h w = Some o -> compress r = true ->
  files w !! fname o = Some (Plain d) ->
  no_faults w -> differs (date r) now -> steady w 4 now ->
  fname o <> logName (path r) now ->
  fname o +:+ ".zip" <> logName (path r) now ->
  let r1 := snd (fst (Write r p w)) in
  let w1 := snd (Write r p w) in
  let w2 := run_goroutine (length (goroutines w)) w1 in
  let name := logName (path r) now in
  goroutines w1 = goroutines w ++ [fname o] /\
  goroutines w2 = goroutines w /\
  files w2 !! fname o = None /\
  files w2 !! (fname o +:+ ".zip")
    = Some (Archive [mkZipEntry (Base (fname o)) (Z.of_nat (length d)) d] true) /\
  files w2 !! name
    = Some (append_bytes p (default (Plain []) (files w !! name))) /\
  (forall n, n <> fname o -> n <> fname o +:+ ".zip" -> n <> name ->
     files w2 !! n = files w !! n) /\
  file r1 = Some (length (fds w)) /\
  open_file (length (fds w)) w2 = Some (mkFile name true).
Proof.
  intros Hf Ho Hc Hsrc Hnf Hdiff Hs Hn1 Hn2. cbn zeta.
  destruct (Write_rollover_world r p w h o now Hf Ho Hnf Hdiff Hs)
    as (Hgo & Hfd & Hfi & Hfa).
  destruct (Write_rollover r p w h o now Hf Ho Hnf Hdiff Hs)
    as (r' & w' & evs & HW & _ & _ & _ & _ & _ & Hfile & Hopen & _).
  rewrite HW in *. cbn [fst snd] in *. rewrite Hc in Hgo.
  pose proof (zip_name_fresh (fname o)) as Hz.
  assert (Hrun : run_goroutine (length (goroutines w)) w'
                 = compressFile (fname o) (set_goroutines (goroutines w) w')).
  { unfold run_goroutine. rewrite Hgo.
    rewrite lookup_app_r, Nat.sub_diag by lia. cbn [lookup list_lookup].
    f_equal. f_equal.
    rewrite delete_middle. apply app_nil_r. }
  rewrite Hrun.
  assert (Hsrc' : files (set_goroutines (goroutines w) w') !! fname o
                  = Some (Plain d)).
  { cbn [files set_goroutines]. rewrite Hfi, lookup_insert_ne by congruence.
    exact Hsrc. }
  assert (Hnf' : no_faults (set_goroutines (goroutines w) w')).
  { intros op. cbn [faults set_goroutines]. rewrite Hfa. apply Hnf. }
  pose proof (compressFile_success _ _ _ Hsrc' Hnf') as Hfiles.
  cbn [files set_goroutines] in Hfiles.
  split; [exact Hgo|].
  split.
  { destruct (compressFile_env (fname o) (set_goroutines (goroutines w) w'))
      as (_ & _ & _ & _ & Hg). exact Hg. }
  split.
  { rewrite Hfiles, lookup_insert_ne, lookup_delete_eq by congruence.
    reflexivity. }
  split; [rewrite Hfiles; apply lookup_insert_eq|].
  split.
  { rewrite Hfiles, lookup_insert_ne, lookup_delete_ne, lookup_insert_ne, Hfi
      by congruence. apply lookup_insert_eq. }
  split.
  { intros n Ha Hb Hc'.
    rewrite Hfiles, lookup_insert_ne, lookup_delete_ne, lookup_insert_ne, Hfi
      by congruence. now rewrite lookup_insert_ne by congruence. }
  split; [exact Hfile|].
  pose proof (compressFile_keeps (fname o) (set_goroutines (goroutines w) w'))
    as [_ Hk].
  unfold open_file in Hopen |- *.
  rewrite Hk; [exact Hopen|].
  cbn [fds set_goroutines]. rewrite Hfd, length_app, length_insert. cbn. lia.
Qed.

Lemma rotation_then_compression_witness :
  let w2 := run_goroutine 0 (snd (Write sink_open hello (world_open march6 quiet))) in
  files w2 !! logName logs march5 = None /\
  files w2 !! (logName logs march5 +:+ ".zip")
    = Some (Archive [mkZipEntry (Base (logName logs march5)) 5 hello] true) /\
  files w2 !! logName logs march6 = Some (Plain hello).
Proof.
  assert (Hs : files (world_open march6 quiet)
                 !! fname (mkFile (logName logs march5) true)
               = Some (Plain hello)) by (vm_compute; reflexivity).
  assert (Hd : differs (date sink_open) march6) by (left; cbn; lia).
  assert (Hn1 : fname (mkFile (logName logs march5) true)
                <> logName (path sink_open) march6)
    by (vm_compute; discriminate).
  assert (Hn2 : fname (mkFile (logName logs march5) true) +:+ ".zip"
                <> logName (path sink_open) march6)
    by (vm_compute; discriminate).
  pose proof (rotation_then_compression sink_open hello
                (world_open march6 quiet) 0%nat
                (mkFile (logName logs march5) true) hello march6
                eq_refl eq_refl eq_refl Hs (fun _ => eq_refl) Hd eq_refl
                Hn1 Hn2) as H.
  cbv zeta in H. destruct H as (_ & _ & H1 & H2 & H3 & _).
  intros w2. split; [exact H1|]. split; [exact H2|]. exact H3.
Defined.
(** ** The worker beside a sink at work *)

Lemma run_goroutine_env (i : nat) (w : World) :
  faults (run_goroutine i w) = faults w /\
  clock (run_goroutine i w) = clock w /\
  ticks (run_goroutine i w) = ticks w /\
  dirs (run_goroutine i w) = dirs w.
Proof.
  unfold run_goroutine. destruct (goroutines w !! i) as [src|]; [|auto].
  destruct (compressFile_env src (set_goroutines (delete i (goroutines w)) w))
    as (-> & -> & -> & -> & _).
  auto.
Qed.

(** X13. The worker does not disturb the sink.  Whatever the task does
    and whichever of its calls fail, when it works on another file than
    the one the sink holds open, and on another archive, the file of the
    sink is still open afterwards, and a write on the day of the file
    returns what it would have returned had the task not run and leaves
    the same bytes in the file. *)
Theorem worker_does_not_disturb_the_sink (i : nat) (r : fileRotator)
  (p : list Byte.byte) (w : World) (h : nat) (o : File) (now : Time) :
  file r = Some h -> open_file h w = Some o ->
  same_date (date r) now -> steady w 3 now ->
  (forall src, goroutines w !! i = Some src ->
     fname o <> src /\ fname o <> src +:+ ".zip") ->
  let w' := run_goroutine i w in
  open_file h w' = Some o /\
  fst (Write r p w') = fst (Write r p w) /\
  files (snd (Write r p w')) !! fname o = files (snd (Write r p w)) !! fname o.
Proof.
  intros Hf Ho Hsame Hs Hsrc. cbn zeta.
  destruct (run_goroutine_env i w) as (Hfa & Hcl & Hti & _).
  pose proof (open_file_lookup _ _ _ Ho) as [Hl _].
  assert (Ho' : open_file h (run_goroutine i w) = Some o).
  { destruct (run_goroutine_keeps i w) as [_ Hk].
    unfold open_file in Ho |- *. rewrite Hk; [exact Ho|].
    eapply lookup_lt_Some; eauto. }
  assert (Hs' : steady (run_goroutine i w) 3 now)
    by (unfold steady in *; now rewrite Hcl, Hti).
  assert (Hfi : files (run_goroutine i w) !! fname o = files w !! fname o).
  { unfold run_goroutine.
    destruct (goroutines w !! i) as [src|] eqn:E; [|reflexivity].
    destruct (Hsrc src eq_refl) as [H1 H2].
    now rewrite compressFile_frame. }
  destruct (Write_same_day_result r p w h o now Hf Ho Hsame Hs)
    as (w1 & HW1 & Hfi1 & _).
  destruct (Write_same_day_result r p (run_goroutine i w) h o now Hf Ho' Hsame Hs')
    as (w2 & HW2 & Hfi2 & _).
  rewrite HW1, HW2, Hfa. cbn [fst snd].
  split; [exact Ho'|]. split; [reflexivity|].
  rewrite Hfi1, Hfi2, Hfa.
  destruct (faults w (OpWrite h p)); [exact Hfi|].
  now rewrite !lookup_alter_eq, Hfi.
Qed.

(** A task for the closed file of March 5 runs beside the sink, which
    holds the file of March 6. *)
Lemma worker_does_not_disturb_the_sink_witness :
  let busy := mkWorld (fun _ => march6) 0 quiet [logs]
                {[ logName logs march5 := Plain hello;
                   logName logs march6 := Plain [] ]}
                [mkFile (logName logs march5) false;
                 mkFile (logName logs march6) true]
                [logName logs march5] [] in
  let r := mkRotator logs (Some 1%nat) march6 true in
  fst (Write r hello (run_goroutine 0 busy)) = fst (Write r hello busy).
Proof.
  intros busy r.
  assert (Hd : same_date (date r) march6) by (repeat split).
  assert (Hn : forall src, goroutines busy !! 0%nat = Some src ->
                 fname (mkFile (logName logs march6) true) <> src /\
                 fname (mkFile (logName logs march6) true) <> src +:+ ".zip").
  { intros src H. injection H as <-. split; vm_compute; discriminate. }
  pose proof (worker_does_not_disturb_the_sink 0 r hello busy 1
                (mkFile (logName logs march6) true) march6
                eq_refl eq_refl Hd eq_refl Hn) as H.
  cbv zeta in H. destruct H as (_ & H & _). exact H.
Defined.
(** * Further properties of the facade *)

(** ** The options of [NewLogger] *)

Lemma info_level_known :
  logger.loggerLevelMap !! "info" = Some zap.InfoLevel.
Proof. vm_compute. reflexivity. Qed.

Lemma Level_known (lv : string) :
  is_Some (logger.loggerLevelMap
             !! match logger.loggerLevelMap !! lv with
                | Some _ => lv
                | None => "info"
                end).
Proof.
  destruct (logger.loggerLevelMap !! lv) eqn:E.
  - rewrite E. eauto.
  - rewrite info_level_known. eauto.
Qed.

(** What a sequence of options makes of a [Logger]. *)
Lemma apply_options_spec (cs : list logger.OptionCall) (l : logger.Logger) :
  is_Some (logger.loggerLevelMap !! logger.level l) ->
  match logger.apply_options (map logger.option_of cs) l with
  | None => In (logger.CallBaseLogger None) cs
  | Some l' =>
      ~ In (logger.CallBaseLogger None) cs /\
      is_Some (logger.loggerLevelMap !! logger.level l') /\
      logger.rotator l' = logger.rotator l /\
      (logger.level l' = logger.level l \/ logger.level l' = "info" \/
       In (logger.CallLevel (logger.level l')) cs)
  end.
Proof.
  revert l. induction cs as [|c cs IH]; intros l Hl.
  - cbn. auto.
  - cbn [map logger.apply_options].
    destruct c as [p|lv|enable|[b|]]; cbn [logger.option_of].
    + unfold logger.Path.
      specialize (IH (logger.mkLogger p (logger.level l) (logger.structured l)
                        (logger.baseLogger l) (logger.sugarLogger l)
                        (logger.rotator l)) Hl).
      destruct (logger.apply_options _ _) as [l'|]; [|now right].
      destruct IH as (Hn & Hk & Hr & Hlv). cbn [logger.level logger.rotator] in Hr, Hlv.
      split; [intros [H|H]; [discriminate|auto]|].
      split; [exact Hk|]. split; [exact Hr|].
      destruct Hlv as [H|[H|H]]; auto. right; right; now right.
    + unfold logger.Level.
      specialize (IH (logger.mkLogger (logger.path l)
                        (match logger.loggerLevelMap !! lv with
                         | Some _ => lv
                         | None => "info"
                         end) (logger.structured l)
                        (logger.baseLogger l) (logger.sugarLogger l)
                        (logger.rotator l)) (Level_known lv)).
      destruct (logger.apply_options _ _) as [l'|]; [|now right].
      destruct IH as (Hn & Hk & Hr & Hlv). cbn [logger.level logger.rotator] in Hr, Hlv.
      split; [intros [H|H]; [discriminate|auto]|].
      split; [exact Hk|]. split; [exact Hr|].
      destruct Hlv as [H|[H|H]]; [|auto|right; right; now right].
      destruct (logger.loggerLevelMap !! lv); [|auto].
      right; right; left. now rewrite H.
    + unfold logger.Structured.
      specialize (IH (logger.mkLogger (logger.path l) (logger.level l) enable
                        (logger.baseLogger l) (logger.sugarLogger l)
                        (logger.rotator l)) Hl).
      destruct (logger.apply_options _ _) as [l'|]; [|now right].
      destruct IH as (Hn & Hk & Hr & Hlv). cbn [logger.level logger.rotator] in Hr, Hlv.
      split; [intros [H|H]; [discriminate|auto]|].
      split; [exact Hk|]. split; [exact Hr|].
      destruct Hlv as [H|[H|H]]; auto. right; right; now right.
    + unfold logger.BaseLogger, zap.Sugar.
      match goal with
      | |- context [logger.apply_options _ ?x] => specialize (IH x Hl)
      end.
      destruct (logger.apply_options _ _) as [l'|]; [|now right].
      destruct IH as (Hn & Hk & Hr & Hlv). cbn [logger.level logger.rotator] in Hr, Hlv.
      split; [intros [H|H]; [discriminate|auto]|].
      split; [exact Hk|]. split; [exact Hr|].
      destruct Hlv as [H|[H|H]]; auto. right; right; now right.
    + now left.
Qed.

(** X14. The level of a new logger is always one of the seven names.
    [NewLogger] panics exactly when one of its options is [BaseLogger] of
    a nil logger.  Otherwise it allocates one [Logger] and no sink; the
    level it stores is a key of [loggerLevelMap], the one [getLoggerLevel]
    returns the value of, so that the fallback of [getLoggerLevel] is not
    taken; that level is [info] or one that a [Level] option named. *)
Theorem NewLogger_level_is_known (cs : list logger.OptionCall)
  (σ : logger.Heap) :
  (logger.NewLogger (map logger.option_of cs) σ = None <->
   In (logger.CallBaseLogger None) cs) /\
  forall lp σ',
    logger.NewLogger (map logger.option_of cs) σ = Some (lp, σ') ->
    lp = length (logger.loggers σ) /\
    logger.rotators σ' = logger.rotators σ /\
    exists l,
      logger.loggers σ' = logger.loggers σ ++ [l] /\
      logger.loggerLevelMap !! logger.level l = Some (logger.getLoggerLevel l) /\
      logger.rotator l = None /\
      (logger.level l = "info" \/ In (logger.CallLevel (logger.level l)) cs).
Proof.
  pose proof (apply_options_spec cs
                (logger.mkLogger "" "info" false None None None)
                (ex_intro _ _ info_level_known)) as H.
  unfold logger.NewLogger.
  destruct (logger.apply_options _ _) as [l|].
  - destruct H as (Hn & [lv Hk] & Hr & Hlv). cbn [logger.level logger.rotator] in Hr, Hlv.
    split; [split; [discriminate|contradiction]|].
    intros lp σ' E. injection E as <- <-. cbn.
    split; [reflexivity|]. split; [reflexivity|].
    exists l. split; [reflexivity|].
    split; [unfold logger.getLoggerLevel; now rewrite Hk|].
    split; [exact Hr|]. destruct Hlv as [H|[H|H]]; auto.
  - split; [split; auto|]. discriminate.
Qed.

Lemma NewLogger_level_is_known_witness :
  logger.NewLogger
    (map logger.option_of [logger.CallPath logs; logger.CallBaseLogger None])
    (logger.mkHeap [] []) = None /\
  exists l,
    logger.loggerLevelMap !! logger.level l = Some (logger.getLoggerLevel l) /\
    (logger.level l = "info" \/
     In (logger.CallLevel (logger.level l))
        [logger.CallPath logs; logger.CallLevel "loud"]).
Proof.
  split.
  - apply (proj1 (NewLogger_level_is_known
                    [logger.CallPath logs; logger.CallBaseLogger None]
                    (logger.mkHeap [] []))).
    right. left. reflexivity.
  - destruct (proj2 (NewLogger_level_is_known
                       [logger.CallPath logs; logger.CallLevel "loud"]
                       (logger.mkHeap [] [])) 0%nat _ eq_refl)
      as (_ & _ & l & _ & Hk & _ & Hlv).
    exists l. split; assumption.
Defined.
(** ** [InitLogger] and [Close] *)

Lemma Heap_eta (σ : logger.Heap) :
  logger.mkHeap (logger.loggers σ) (logger.rotators σ) = σ.
Proof. now destruct σ. Qed.

(** [Close] of a logger whose sink holds no file. *)
Lemma Logger_Close_no_file (lp : nat) (sync : option error) (σ : logger.Heap)
  (w : World) (l : logger.Logger) (rp : nat) (r : fileRotator) :
  logger.loggers σ !! lp = Some l -> is_Some (logger.sugarLogger l) ->
  logger.rotator l = Some rp -> logger.rotators σ !! rp = Some r ->
  file r = None ->
  logger.Close lp sync σ w = Some (sync, σ, w).
Proof.
  intros Hl [s Hs] Hr Hrp Hf. unfold logger.Close.
  rewrite Hl, Hs. destruct sync as [e|]; [reflexivity|].
  rewrite Hr, Hrp, (Close_nil r w Hf), list_insert_id, Heap_eta by exact Hrp.
  reflexivity.
Qed.

(** [Close] of a logger whose sink holds an open file. *)
Lemma Logger_Close_open (lp : nat) (σ : logger.Heap) (w : World)
  (l : logger.Logger) (rp : nat) (r : fileRotator) (h : nat) (o : File) :
  logger.loggers σ !! lp = Some l -> is_Some (logger.sugarLogger l) ->
  logger.rotator l = Some rp -> logger.rotators σ !! rp = Some r ->
  file r = Some h -> open_file h w = Some o ->
  logger.Close lp None σ w =
  Some (fst (fst (Close r w)), σ, snd (Close r w)) /\
  snd (fst (Close r w)) = r.
Proof.
  intros Hl [s Hs] Hr Hrp Hf Ho. unfold logger.Close.
  rewrite Hl, Hs, Hr, Hrp.
  assert (Hsame : snd (fst (Close r w)) = r).
  { rewrite (Close_open r w h o Hf Ho).
    destruct (faults w (OpSync h)); reflexivity. }
  destruct (Close r w) as [[err r'] w']. cbn [fst snd] in *. subst r'.
  now rewrite list_insert_id, Heap_eta by exact Hrp.
Qed.

(** X15. [InitLogger] gives the logger a sink of its own, never written
    to.  On every logger it succeeds and allocates one sink, for the
    directory of the logger, with compression on and no file; the logger
    points to it, and it keeps its path, level and format.  The engine it
    builds has one core for the sink, the last one, preceded by one for
    the standard output when the console is enabled, all at the level of
    the logger; the core of the sink writes JSON exactly when the logger
    is structured, the one of the standard output never does.  The other loggers and the sinks that existed are left as
    they were, so that a [Close] that follows at once returns what [Sync]
    returns and makes no call: a file that an earlier sink of this logger
    holds is not closed by it. *)
Theorem InitLogger_makes_a_fresh_sink (lp : nat) (console : bool)
  (σ : logger.Heap) (l : logger.Logger) :
  logger.loggers σ !! lp = Some l ->
  exists σ' l' b,
    logger.InitLogger lp console σ = Some σ' /\
    logger.rotators σ'
      = logger.rotators σ ++ [mkRotator (logger.path l) None zeroTime true] /\
    logger.loggers σ' !! lp = Some l' /\
    (forall k, k <> lp -> logger.loggers σ' !! k = logger.loggers σ !! k) /\
    logger.rotator l' = Some (length (logger.rotators σ)) /\
    logger.path l' = logger.path l /\ logger.level l' = logger.level l /\
    logger.structured l' = logger.structured l /\
    logger.baseLogger l' = Some b /\ is_Some (logger.sugarLogger l') /\
    map zap.out (zap.cores b)
      = (if console then [zap.Stdout] else [])
          ++ [zap.Sink (length (logger.rotators σ))] /\
    map zap.enc (zap.cores b)
      = (if console then [zap.ConsoleEncoder] else [])
          ++ [if logger.structured l then zap.JSONEncoder
              else zap.ConsoleEncoder] /\
    Forall (fun c => zap.lvl c = logger.getLoggerLevel l /\ zap.context c = [])
      (zap.cores b) /\
    forall sync w, logger.Close lp sync σ' w = Some (sync, σ', w).
Proof.
  intros Hl. pose proof (lookup_lt_Some _ _ _ Hl) as Hlt.
  unfold logger.InitLogger. rewrite Hl. cbn [zap.Sugar].
  eexists _, _, _. split; [reflexivity|].
  cbn [logger.loggers logger.rotators].
  split; [reflexivity|].
  split; [now apply list_lookup_insert_eq|].
  split; [intros k Hk; now apply list_lookup_insert_ne|].
  cbn [logger.rotator logger.path logger.level logger.structured
       logger.baseLogger logger.sugarLogger zap.cores].
  repeat (split; [reflexivity|]).
  split; [eauto|].
  split; [destruct console; reflexivity|].
  split; [destruct console; reflexivity|].
  split; [destruct console; repeat constructor|].
  intros sync w.
  eapply Logger_Close_no_file with (rp := length (logger.rotators σ)).
  - cbn [logger.loggers]. now apply list_lookup_insert_eq.
  - cbn [logger.sugarLogger]. eauto.
  - reflexivity.
  - cbn [logger.rotators]. rewrite lookup_app_r, Nat.sub_diag by lia.
    reflexivity.
  - reflexivity.
Qed.

Lemma InitLogger_makes_a_fresh_sink_witness :
  exists σ',
    logger.InitLogger 0 true heap_created = Some σ' /\
    logger.rotators σ' = [] ++ [mkRotator "" None zeroTime true] /\
    logger.Close 0 None σ' (world_new march5 quiet)
      = Some (None, σ', world_new march5 quiet).
Proof.
  destruct (InitLogger_makes_a_fresh_sink 0 true heap_created
              (logger.mkLogger "" "info" false None None None) eq_refl)
    as (σ' & l' & b & H1 & H2 & _ & _ & _ & _ & _ & _ & _ & _ & _ & _ & _ & H3).
  exists σ'. split; [exact H1|]. split; [exact H2|]. apply H3.
Defined.

(** X16. [Close] of a logger returns the first error it meets, and closes
    the file only when nothing failed before.  For a logger whose sink
    holds an open file, the result is the error of [Sync] of the engine
    when there is one, else the one of the flush of the file, else the one
    of its close.  The file is closed exactly when the engine and the
    flush both succeeded: an error of [Sync] of the engine returns before
    the sink is touched, and the file stays open.  The loggers, the sinks
    and the content of the files are what they were. *)
Theorem Logger_Close_returns_the_first_error (lp : nat) (sync : option error)
  (σ : logger.Heap) (w : World) (l : logger.Logger) (rp : nat)
  (r : fileRotator) (h : nat) (o : File) :
  logger.loggers σ !! lp = Some l -> is_Some (logger.sugarLogger l) ->
  logger.rotator l = Some rp -> logger.rotators σ !! rp = Some r ->
  file r = Some h -> open_file h w = Some o ->
  exists w',
    logger.Close lp sync σ w =
      Some (match sync with
            | Some e => Some e
            | None => match faults w (OpSync h) with
                      | Some e => Some e
                      | None => faults w (OpClose h)
                      end
            end, σ, w') /\
    files w' = files w /\
    (sync <> None -> w' = w) /\
    (closed_handle h w' <-> sync = None /\ faults w (OpSync h) = None).
Proof.
  intros Hl Hs Hr Hrp Hf Ho.
  assert (Hno : ~ closed_handle h w).
  { intros Hc. apply closed_handle_not_open in Hc. congruence. }
  destruct sync as [e|].
  - exists w. split.
    + destruct Hs as [s Hs]. unfold logger.Close. now rewrite Hl, Hs.
    + split; [reflexivity|]. split; [reflexivity|].
      split; [contradiction|]. intros [H _]. discriminate.
  - destruct (Logger_Close_open lp σ w l rp r h o Hl Hs Hr Hrp Hf Ho)
      as [HC _].
    rewrite HC, (Close_open r w h o Hf Ho).
    destruct (faults w (OpSync h)) as [e|]; cbn [fst snd].
    + eexists. split; [reflexivity|]. split; [reflexivity|].
      split; [intros H; now contradiction H|].
      split; [contradiction|]. intros [_ H]. discriminate.
    + eexists. split; [reflexivity|]. split; [reflexivity|].
      split; [intros H; now contradiction H|].
      split; [auto|]. intros _.
      exists (mkFile (fname o) false). split; [|reflexivity].
      cbn [fds emit set_fds].
      destruct (open_file_lookup _ _ _ Ho) as [Hlk _].
      eapply closed_lookup; eauto.
Qed.

(** The standard output cannot be flushed, as on a terminal. *)
Lemma Logger_Close_returns_the_first_error_witness :
  let σ := logger.mkHeap
             [logger.mkLogger logs "info" false None
                (Some (zap.mkSugared (zap.mkLogger [] true 3))) (Some 0%nat)]
             [sink_open] in
  logger.Close 0 (Some ErrInvalid) σ (world_open march5 quiet)
    = Some (Some ErrInvalid, σ, world_open march5 quiet).
Proof.
  intros σ.
  destruct (Logger_Close_returns_the_first_error 0 (Some ErrInvalid) σ
              (world_open march5 quiet)
              (logger.mkLogger logs "info" false None
                 (Some (zap.mkSugared (zap.mkLogger [] true 3))) (Some 0%nat))
              0%nat sink_open 0%nat (mkFile (logName logs march5) true)
              eq_refl (ex_intro _ _ eq_refl) eq_refl eq_refl eq_refl eq_refl)
    as (w' & H & _ & Hw & _).
  rewrite H, Hw; [reflexivity|discriminate].
Defined.

(** X17. Closing a logger made by [WithFields] closes the sink of its
    parent.  When a logger whose sink holds an open file is given fields
    and the new logger is closed, the flush succeeding, the file of the
    parent is closed; a [Close] of the parent then returns the closed-file
    error, and a write through the sink returns that error and zero. *)
Theorem closing_a_child_closes_the_sink_of_its_parent (lp : nat)
  (fields : list (string * zap.Any)) (σ : logger.Heap) (w : World)
  (l : logger.Logger) (b : zap.Logger) (rp : nat) (r : fileRotator)
  (h : nat) (o : File) :
  logger.loggers σ !! lp = Some l ->
  logger.baseLogger l = Some b -> is_Some (logger.sugarLogger l) ->
  logger.rotator l = Some rp -> logger.rotators σ !! rp = Some r ->
  file r = Some h -> open_file h w = Some o ->
  faults w (OpSync h) = None ->
  exists σ1 w1 w2,
    logger.WithFields lp fields σ = Some (length (logger.loggers σ), σ1) /\
    logger.rotators σ1 = logger.rotators σ /\
    logger.Close (length (logger.loggers σ)) None σ1 w
      = Some (faults w (OpClose h), σ1, w1) /\
    closed_handle h w1 /\
    logger.Close lp None σ1 w1 = Some (Some ErrClosed, σ1, w2) /\
    forall p, fst (Write r p w1) = ((0, Some ErrClosed), r).
Proof.
  intros Hl Hb Hs Hr Hrp Hf Ho Hsync.
  pose proof (lookup_lt_Some _ _ _ Hl) as Hlt.
  assert (Hw : exists z', zap.With (Some b)
                 (map (fun kv => zap.mkField (fst kv) (snd kv)) fields)
               = Some (Some z')).
  { unfold zap.With. destruct (map _ fields); eauto. }
  destruct Hw as (z' & Hw).
  unfold logger.WithFields. rewrite Hl, Hb, Hw. cbn [zap.Sugar].
  set (child := logger.mkLogger _ _ _ _ _ _).
  set (σ1 := logger.mkHeap (logger.loggers σ ++ [child]) (logger.rotators σ)).
  assert (Hc : logger.loggers σ1 !! length (logger.loggers σ) = Some child).
  { cbn [logger.loggers σ1]. rewrite lookup_app_r, Nat.sub_diag by lia.
    reflexivity. }
  assert (Hp : logger.loggers σ1 !! lp = Some l).
  { cbn [logger.loggers σ1]. now rewrite lookup_app_l by lia. }
  destruct (Logger_Close_open (length (logger.loggers σ)) σ1 w child rp r h o
              Hc (ex_intro _ _ eq_refl) Hr Hrp Hf Ho) as [HC _].
  rewrite (Close_open r w h o Hf Ho), Hsync in HC. cbn [fst snd] in HC.
  set (w1 := emit (Call (OpClose h) (faults w (OpClose h))) _) in HC.
  assert (Hcl : closed_handle h w1).
  { exists (mkFile (fname o) false). split; [|reflexivity].
    cbn [fds emit set_fds w1].
    destruct (open_file_lookup _ _ _ Ho) as [Hlk _].
    eapply closed_lookup; eauto. }
  exists σ1, w1, (emit (Call (OpSync h) (Some ErrClosed)) w1).
  split; [reflexivity|]. split; [reflexivity|]. split; [exact HC|].
  split; [exact Hcl|].
  split.
  - destruct Hs as [s Hs]. unfold logger.Close.
    rewrite Hp, Hs, Hr. cbn [logger.rotators σ1]. rewrite Hrp.
    rewrite (Close_closed r w1 h Hf Hcl), list_insert_id by exact Hrp.
    reflexivity.
  - intros p. destruct (Write_closed r p w1 h Hf Hcl) as (ev & w' & -> & _).
    reflexivity.
Qed.

Lemma closing_a_child_closes_the_sink_of_its_parent_witness :
  let σ := logger.mkHeap
             [logger.mkLogger logs "info" false
                (Some (zap.mkLogger [] true 1))
                (Some (zap.mkSugared (zap.mkLogger [] true 3))) (Some 0%nat)]
             [sink_open] in
  exists σ1 w1 w2,
    logger.WithFields 0 two_fields σ = Some (1%nat, σ1) /\
    logger.Close 1 None σ1 (world_open march5 quiet) = Some (None, σ1, w1) /\
    logger.Close 0 None σ1 w1 = Some (Some ErrClosed, σ1, w2).
Proof.
  intros σ.
  destruct (closing_a_child_closes_the_sink_of_its_parent 0 two_fields σ
              (world_open march5 quiet)
              (logger.mkLogger logs "info" false
                 (Some (zap.mkLogger [] true 1))
                 (Some (zap.mkSugared (zap.mkLogger [] true 3))) (Some 0%nat))
              (zap.mkLogger [] true 1) 0%nat sink_open 0%nat
              (mkFile (logName logs march5) true)
              eq_refl eq_refl (ex_intro _ _ eq_refl) eq_refl eq_refl eq_refl
              eq_refl eq_refl)
    as (σ1 & w1 & w2 & H1 & _ & H2 & _ & H3 & _).
  exists σ1, w1, w2. split; [exact H1|]. split; [exact H2|]. exact H3.
Defined.
